(** * xc: cut characters from a text buffer

    A shallow embedding of [src/char_type.h] (the classifier library) and of
    the removal engine of [src/xc.cc] ([look_for], [ignore_if],
    [ignore_and_append], [contains_this], [match_args] and the part of
    [main] that runs them), with the properties of the specification stated
    over it.

    Conventions.
    - A [std::string] is a [list ascii]; an iterator is an offset from
      [begin()], so [end()] is the length.
    - An [int] is a [Z].  Every classifier is called by [xc.cc] through a
      lambda [[](int c)], so the classifiers are embedded at [__CType = int].
    - A [std::size_t] is a [Z] in [0, 2^64), arithmetic on it wraps. *)

From Stdlib Require Import ZArith Ascii String List Bool Lia.
From Equations Require Import Equations.
From Equations.Prop Require Import Logic.
From Stdlib Require Import Permutation.
Import ListNotations.

Local Open Scope Z_scope.

(** The character type of the buffer and of the pattern. *)
Definition str : Type := list ascii.

(** A string literal of the source. *)
Definition lit (s : string) : str := list_ascii_of_string s.

(** The value of a character literal, ['a'] and the like, as an [int]. *)
Definition chr (a : ascii) : Z := Z.of_N (N_of_ascii a).

(** The escape sequences the source writes, by their ASCII codes. *)
Definition chr_nul : Z := 0.   (* '\0' *)
Definition chr_bel : Z := 7.   (* '\a' *)
Definition chr_bs : Z := 8.    (* '\b' *)
Definition chr_ht : Z := 9.    (* '\t' *)
Definition chr_nl : Z := 10.   (* '\n' *)
Definition chr_vt : Z := 11.   (* '\v' *)
Definition chr_ff : Z := 12.   (* '\f' *)
Definition chr_cr : Z := 13.   (* '\r' *)

(** ** char_type.h *)

Module char_type.

Definition isalnum (c : Z) : bool :=
  (((chr "a" <=? c) && (c <=? chr "z")) || ((chr "A" <=? c) && (c <=? chr "Z")))
  || ((chr "0" <=? c) && (c <=? chr "9")).

Definition isalpha (c : Z) : bool :=
  ((chr "a" <=? c) && (c <=? chr "z")) || ((chr "A" <=? c) && (c <=? chr "Z")).

Definition iscntrl (c : Z) : bool :=
  ((chr_nul <=? c) && (c <? chr " ")) || (c =? 127).

Definition isdigit (c : Z) : bool :=
  (chr "0" <=? c) && (c <=? chr "9").

Definition isgraph (c : Z) : bool :=
  (chr "!" <=? c) && (c <=? chr "~").

Definition islower (c : Z) : bool :=
  (chr "a" <=? c) && (c <=? chr "z").

Definition isprint (c : Z) : bool :=
  (chr " " <=? c) && (c <=? chr "_").

Definition ispunct (c : Z) : bool :=
  isgraph c && negb (isalnum c).

Definition isspace (c : Z) : bool :=
  ((chr_ht <=? c) && (c <=? chr_cr)) || (c =? chr " ").

Definition isupper (c : Z) : bool :=
  (chr "A" <=? c) && (c <=? chr "Z").

Definition isxdigit (c : Z) : bool :=
  isdigit c || (((chr "a" <=? c) && (c <=? chr "f"))
                || ((chr "A" <=? c) && (c <=? chr "F"))).

Definition isascii (c : Z) : bool :=
  Z.land c (Z.lnot 127) =? 0.

Definition isblank (c : Z) : bool :=
  (c =? chr " ") || (c =? chr_ht).

(** [c + '0' - 16] and [c - '0' + 16] are [int] expressions, evaluated from
    the left; the guard bounds [c], so neither can overflow
    ([tolower_in_range], [toupper_in_range]). *)
Definition tolower (c : Z) : Z :=
  if isupper c then c + chr "0" - 16 else c.

Definition toupper (c : Z) : Z :=
  if islower c then c - chr "0" + 16 else c.

Definition isvtab (c : Z) : bool := c =? chr_vt.

Definition ishtab (c : Z) : bool := c =? chr_ht.

Definition istab (c : Z) : bool := isvtab c || ishtab c.

Definition isaspace (c : Z) : bool := c =? chr " ".

Definition isbel (c : Z) : bool := c =? chr_bel.

Definition isbackspace (c : Z) : bool := c =? chr_bs.

Definition isformfeed (c : Z) : bool := c =? chr_ff.

Definition isnewline (c : Z) : bool := c =? chr_nl.

Definition isreturn (c : Z) : bool := c =? chr_cr.

Definition isxlower (c : Z) : bool :=
  islower c || ((chr "a" <=? c) && (c <=? chr "f")).

Definition isxupper (c : Z) : bool :=
  isupper c || ((chr "A" <=? c) && (c <=? chr "F")).

End char_type.

(** ** The string operations of the standard library that xc.cc uses *)

(** [std::string::npos], and arithmetic on [std::size_t]. *)
Definition size_max : Z := 2 ^ 64.
Definition npos : Z := size_max - 1.
Definition size_add (a b : Z) : Z := (a + b) mod size_max.

Definition size (s : str) : Z := Z.of_nat (length s).

(** [key] is what [s] starts with. *)
Fixpoint starts_with (s key : str) : bool :=
  match key, s with
  | [], _ => true
  | _ :: _, [] => false
  | k :: key', x :: s' => Ascii.eqb x k && starts_with s' key'
  end.

(** The offset of the first place at which [key] occurs in [s]. *)
Fixpoint first_occurrence (s key : str) : option nat :=
  if starts_with s key then Some 0%nat
  else match s with
       | [] => None
       | _ :: s' => option_map S (first_occurrence s' key)
       end.

(** The offset of the last place at which [key] occurs in [s]. *)
Fixpoint last_occurrence (s key : str) : option nat :=
  match s with
  | [] => if starts_with [] key then Some 0%nat else None
  | _ :: s' =>
      match last_occurrence s' key with
      | Some i => Some (S i)
      | None => if starts_with s key then Some 0%nat else None
      end
  end.

(** [s.find(key)] and [s.rfind(key)]: a position, or [npos]. *)
Definition find (s key : str) : Z :=
  match first_occurrence s key with
  | Some i => Z.of_nat i
  | None => npos
  end.

Definition rfind (s key : str) : Z :=
  match last_occurrence s key with
  | Some i => Z.of_nat i
  | None => npos
  end.

(** [s.replace(pos, n, t)]: the characters of [s] in
    [pos, pos + min(n, size - pos)) give way to [t]; [None] stands for the
    [std::out_of_range] it throws when [pos > size]. *)
Definition replace (s : str) (pos n : Z) (t : str) : option str :=
  if size s <? pos then None
  else
    let rlen := Z.min n (size s - pos) in
    Some (firstn (Z.to_nat pos) s ++ t ++ skipn (Z.to_nat (pos + rlen)) s).

(** [std::find(s.begin(), s.end(), e)], as an offset from [s.begin()]; the
    length of [s] is [s.end()]. *)
Fixpoint std_find (s : str) (e : ascii) : nat :=
  match s with
  | [] => 0%nat
  | x :: s' => if Ascii.eqb x e then 0%nat else S (std_find s' e)
  end.

(** [s.erase(p)] for an iterator [p], and [s.erase(first, last)] for a range
    of iterators. *)
Definition erase_at (s : str) (p : nat) : str :=
  firstn p s ++ skipn (S p) s.

Definition erase_range (s : str) (first last : nat) : str :=
  firstn first s ++ skipn last s.

(** ** xc.cc *)

(** How a call ends: it returns, or [fatal_errorx] writes its message to
    [std::cerr] and calls [std::exit(1)].  Both record the by-reference
    arguments [source] and [matches] as they are at that moment. *)
Inductive outcome : Type :=
| Returned (ret : str) (source matches : str)
| Exited (status : Z) (cerr : string) (source matches : str).

Definition newline : string := String (ascii_of_nat 10) EmptyString.

Definition fatal_errorx (emsg : string) (source matches : str) : outcome :=
  Exited 1 ("error: " ++ emsg ++ newline)%string source matches.

(** The [while] loop of [look_for] for one character [e] of [matches]:
    [while (times && find(source, e) != end(source))
       { source.erase(find(source, e)); times--; }].
    Every iteration takes one character out of [source]. *)
Equations? while_find (e : ascii) (times : Z) (source : str) : Z * str
  by wf (length source) lt :=
  while_find e times source
    with inspect (negb (times =? 0)
                  && negb (Nat.eqb (std_find source e) (length source))) := {
    | exist _ true running =>
        while_find e (times - 1) (erase_at source (std_find source e));
    | exist _ false _ => (times, source) }.
Proof.
  apply andb_prop in running. destruct running as [_ found].
  apply negb_true_iff, Nat.eqb_neq in found.
  assert (bound : (std_find source e <= length source)%nat).
  { clear. induction source as [|x s IH]; simpl; [lia|].
    destruct (Ascii.eqb x e); simpl; lia. }
  unfold erase_at. rewrite length_app, length_firstn, length_skipn. lia.
Qed.

(** The range-based [for (const auto &e : matches)] of [look_for].  The
    iterators are taken once, before the first iteration: [remaining] counts
    the steps left to [end()], [i] is the offset of the current one, and [e]
    is read through it from [matches] as it is then ([e] is a reference, and
    nothing changes [matches] while the [while] loop runs). *)
Fixpoint for_matches (remaining i : nat) (times_old : Z)
    (source matches : str) : str * str :=
  match remaining with
  | O => (source, matches)
  | S remaining' =>
      match nth_error matches i with
      | None => (source, matches)
      | Some e =>
          let '(_, source) := while_find e times_old source in
          let matches := erase_range matches 0 0 in
          for_matches remaining' (S i) times_old source matches
      end
  end.

Definition look_for (source matches : str) (times : Z) : outcome :=
  let times_old := times in
  if times <? 0 then
    fatal_errorx "size of how many, cannot be less than 0." source matches
  else
    let '(source, matches) :=
      for_matches (length matches) 0 times_old source matches in
    Returned source source matches.

(** [ignore_if]: the bytes of [source] for which [pred] is false, appended
    to an empty [buf] one [push_back] at a time. *)
Definition push_back (buf : str) (item : ascii) : str := buf ++ [item].

Definition ignore_if (source : str) (pred : ascii -> bool) : str :=
  fold_left (fun buf item => if negb (pred item) then push_back buf item else buf)
            source [].

(** [ignore_and_append]: [buf.clear()] and then [buf.append(new_buf)]. *)
Definition ignore_and_append (buf : str) (pred : ascii -> bool) : str :=
  let new_buf := ignore_if buf pred in
  let buf : str := [] in
  buf ++ new_buf.

Definition contains_this (source key : str) : bool :=
  negb (find source key =? npos).

Section Engine.

(** Whether plain [char] is signed is the platform's choice. *)
Variable char_signed : bool.

(** The conversion of a [char] of the buffer to the [int] parameter of a
    predicate lambda. *)
Definition int_of_char (c : ascii) : Z :=
  if char_signed && (128 <=? chr c) then chr c - 256 else chr c.

(** One [if (contains_this(args, token)) ignore_and_append(buf, lambda)] of
    [match_args], the lambda being [[](int c) { return pred(c); }]. *)
Definition on_token (args : str) (token : string) (pred : Z -> bool)
    (buf : str) : str :=
  if contains_this args (lit token)
  then ignore_and_append buf (fun item => pred (int_of_char item))
  else buf.

Definition match_args (args buf : str) : str :=
  let buf := on_token args "[:alnum:]" char_type.isalnum buf in
  let buf := on_token args "[:alpha:]" char_type.isalpha buf in
  let buf := on_token args "[:blank:]" char_type.isblank buf in
  let buf := on_token args "[:cntrl:]" char_type.iscntrl buf in
  let buf := on_token args "[:digit:]" char_type.isdigit buf in
  let buf := on_token args "[:graph:]" char_type.isgraph buf in
  let buf := on_token args "[:lower:]" char_type.islower buf in
  let buf := on_token args "[:print:]" char_type.isprint buf in
  let buf := on_token args "[:punct:]" char_type.ispunct buf in
  let buf := on_token args "[:space:]" char_type.isaspace buf in
  let buf := on_token args "[:htab:]" char_type.ishtab buf in
  let buf := on_token args "[:vtab:]" char_type.ishtab buf in
  let buf := on_token args "[:newline:]" char_type.isnewline buf in
  let buf := on_token args "[:upper:]" char_type.isupper buf in
  let buf := on_token args "[:xdigit:]" char_type.isxdigit buf in
  buf.

(** The literal residue, as [main] computes it from the pattern:
    [if (arg_v1.find("[:") != npos)
       arg_v1 = arg_v1.replace(arg_v1.find("[:"), arg_v1.rfind(":]") + 2, "")]. *)
Definition residue (arg_v1 : str) : option str :=
  if negb (find arg_v1 (lit "[:") =? npos) then
    replace arg_v1 (find arg_v1 (lit "[:"))
            (size_add (rfind arg_v1 (lit ":]")) 2) (lit "")
  else Some arg_v1.

(** How [main] ends once the file is read and the pattern is at hand. *)
Inductive main_outcome : Type :=
| Printed (cout : str)
| Died (status : Z) (cerr : string) (file_buf : str)
| Threw.

(** [main] from the call of [match_args] on. *)
Definition main_core (file_buf arg_v1 : str) (look_lim : Z) : main_outcome :=
  let file_buf := match_args arg_v1 file_buf in
  match residue arg_v1 with
  | None => Threw
  | Some arg_v1 =>
      match look_for file_buf arg_v1 look_lim with
      | Returned _ file_buf _ => Printed file_buf
      | Exited status cerr file_buf _ => Died status cerr file_buf
      end
  end.

End Engine.

(** ** What the specification compares the code with *)

(** [out] is [s] with some of its elements deleted and the others left in
    their order. *)
Inductive subsequence {A : Type} : list A -> list A -> Prop :=
| subsequence_nil : subsequence [] []
| subsequence_keep x out s :
    subsequence out s -> subsequence (x :: out) (x :: s)
| subsequence_delete x out s :
    subsequence out s -> subsequence out (x :: s).

(** The specification's bounded removal: [s] without the leftmost [n]
    occurrences of [e], in one scan from the left. *)
Fixpoint remove_leftmost (n : nat) (e : ascii) (s : str) : str :=
  match n, s with
  | O, _ => s
  | S _, [] => []
  | S n', x :: s' =>
      if Ascii.eqb x e then remove_leftmost n' e s'
      else x :: remove_leftmost n e s'
  end.

(** How often the byte [e] occurs in [s]. *)
Definition occurrences (s : str) (e : ascii) : nat := count_occ ascii_dec s e.

(** The buffer after the passes for the characters of [matches], one after
    the other, each with the full limit. *)
Definition passes (times : Z) (matches source : str) : str :=
  fold_left (fun source e => snd (while_find e times source)) matches source.

(** The bytes at which the specification asks for the ranges to be tried. *)
Definition boundary_bytes : list Z :=
  [0x00; 0x08; 0x09; 0x0D; 0x1F; 0x20; 0x21; 0x5F; 0x60; 0x7E; 0x7F].

(** The tokens of [match_args] with the predicate each one calls, in the
    order of the source. *)
Definition class_tokens : list (string * (Z -> bool)) :=
  [ ("[:alnum:]", char_type.isalnum); ("[:alpha:]", char_type.isalpha);
    ("[:blank:]", char_type.isblank); ("[:cntrl:]", char_type.iscntrl);
    ("[:digit:]", char_type.isdigit); ("[:graph:]", char_type.isgraph);
    ("[:lower:]", char_type.islower); ("[:print:]", char_type.isprint);
    ("[:punct:]", char_type.ispunct); ("[:space:]", char_type.isaspace);
    ("[:htab:]", char_type.ishtab); ("[:vtab:]", char_type.ishtab);
    ("[:newline:]", char_type.isnewline); ("[:upper:]", char_type.isupper);
    ("[:xdigit:]", char_type.isxdigit) ]%string.

(** The byte [b] satisfies the predicate of a token that [args] contains. *)
Definition selected (char_signed : bool) (args : str) (b : ascii) : bool :=
  existsb (fun entry => contains_this args (lit (fst entry))
                        && snd entry (int_of_char char_signed b))
          class_tokens.

(** [args] contains no token of [match_args] other than [token]. *)
Definition no_token_but (token : string) (args : str) : bool :=
  forallb (fun entry => String.eqb (fst entry) token
                        || negb (contains_this args (lit (fst entry))))
          class_tokens.

(** ** read_file *)

(** The [std::string] built from a pointer to [char]: the characters
    before the first zero byte. *)
Fixpoint c_string (m_buf : str) : str :=
  match m_buf with
  | [] => []
  | x :: rest => if Ascii.eqb x zero then [] else x :: c_string rest
  end.

(** [read_file] from [file_size] on, that is once [open] has succeeded, for
    a file that holds [contents], of which [read] stores the first [got]
    bytes (all of them, or fewer when it falls short or fails):
    [make_unique<char[]>(file_size + 1)] is [file_size + 1] zero bytes,
    [read] writes over the first of them, and the [std::string] returned is
    built from the pointer, so it ends before the first zero byte. *)
Definition read_file (contents : str) (got : nat) : str :=
  let file_size := length contents in
  let m_buf := repeat zero (file_size + 1) in
  let stored := firstn got contents in
  let m_buf := stored ++ skipn (length stored) m_buf in
  c_string m_buf.

(** The byte [b] is one of the characters of the residue. *)
Definition in_residue (matches : str) (b : ascii) : bool :=
  existsb (Ascii.eqb b) matches.

(** * Properties *)

(** ** The classifier library *)

Import char_type.

(** The character literals of the source, as numbers. *)
Ltac literals :=
  unfold chr_nul, chr_bel, chr_bs, chr_ht, chr_nl, chr_vt, chr_ff, chr_cr in *;
  repeat match goal with
         | |- context [chr ?a] =>
             let v := eval vm_compute in (chr a) in change (chr a) with v
         | H : context [chr ?a] |- _ =>
             let v := eval vm_compute in (chr a) in change (chr a) with v in H
         end.

(** Case analysis on every comparison of the goal. *)
Ltac compare_once :=
  match goal with
  | |- context [?x <=? ?y] => case (Z.leb_spec x y); intro
  | |- context [?x <? ?y] => case (Z.ltb_spec x y); intro
  | |- context [?x =? ?y] => case (Z.eqb_spec x y); intro
  end.

Ltac comparisons := repeat compare_once.

Ltac ranges :=
  literals; comparisons; simpl;
  split; intros; try discriminate; try reflexivity; try lia.

Lemma isascii_range (c : Z) : isascii c = true <-> 0 <= c <= 0x7F.
Proof.
  unfold isascii. rewrite Z.eqb_eq.
  change (Z.lnot 127) with (Z.lnot (Z.ones 7)).
  rewrite <- Z.ldiff_land, Z.ldiff_ones_r by lia.
  rewrite Z.shiftl_mul_pow2, Z.shiftr_div_pow2 by lia.
  change (2 ^ 7) with 128.
  split; intros H.
  - assert (c / 128 = 0) as q by lia.
    apply Z.div_small_iff in q; lia.
  - rewrite Z.div_small by lia. reflexivity.
Qed.

Lemma isalnum_range (c : Z) :
  isalnum c = true <->
  0x41 <= c <= 0x5A \/ 0x61 <= c <= 0x7A \/ 0x30 <= c <= 0x39.
Proof. unfold isalnum. ranges. Qed.

Lemma isalpha_range (c : Z) :
  isalpha c = true <-> 0x41 <= c <= 0x5A \/ 0x61 <= c <= 0x7A.
Proof. unfold isalpha. ranges. Qed.

Lemma iscntrl_range (c : Z) :
  iscntrl c = true <-> 0x00 <= c <= 0x1F \/ c = 0x7F.
Proof. unfold iscntrl. ranges. Qed.

Lemma isdigit_range (c : Z) : isdigit c = true <-> 0x30 <= c <= 0x39.
Proof. unfold isdigit. ranges. Qed.

Lemma isgraph_range (c : Z) : isgraph c = true <-> 0x21 <= c <= 0x7E.
Proof. unfold isgraph. ranges. Qed.

Lemma islower_range (c : Z) : islower c = true <-> 0x61 <= c <= 0x7A.
Proof. unfold islower. ranges. Qed.

Lemma isupper_range (c : Z) : isupper c = true <-> 0x41 <= c <= 0x5A.
Proof. unfold isupper. ranges. Qed.

Lemma isprint_range (c : Z) : isprint c = true <-> 0x20 <= c <= 0x5F.
Proof. unfold isprint. ranges. Qed.

Lemma ispunct_range (c : Z) :
  ispunct c = true <->
  0x21 <= c <= 0x7E /\
  ~ (0x41 <= c <= 0x5A \/ 0x61 <= c <= 0x7A \/ 0x30 <= c <= 0x39).
Proof. unfold ispunct, isgraph, isalnum. ranges. Qed.

Lemma isspace_range (c : Z) :
  isspace c = true <-> 0x09 <= c <= 0x0D \/ c = 0x20.
Proof. unfold isspace. ranges. Qed.

Lemma isblank_range (c : Z) : isblank c = true <-> c = 0x20 \/ c = 0x09.
Proof. unfold isblank. ranges. Qed.

Lemma isxdigit_range (c : Z) :
  isxdigit c = true <->
  0x30 <= c <= 0x39 \/ 0x61 <= c <= 0x66 \/ 0x41 <= c <= 0x46.
Proof. unfold isxdigit, isdigit. ranges. Qed.

Lemma isxlower_range (c : Z) :
  isxlower c = true <-> 0x61 <= c <= 0x7A \/ 0x61 <= c <= 0x66.
Proof. unfold isxlower, islower. ranges. Qed.

Lemma isxupper_range (c : Z) :
  isxupper c = true <-> 0x41 <= c <= 0x5A \/ 0x41 <= c <= 0x46.
Proof. unfold isxupper, isupper. ranges. Qed.

Lemma single_byte_predicates (c : Z) :
  (ishtab c = true <-> c = 0x09) /\
  (isvtab c = true <-> c = 0x0B) /\
  (isnewline c = true <-> c = 0x0A) /\
  (isreturn c = true <-> c = 0x0D) /\
  (isaspace c = true <-> c = 0x20) /\
  (isbel c = true <-> c = 0x07) /\
  (isbackspace c = true <-> c = 0x08) /\
  (isformfeed c = true <-> c = 0x0C) /\
  (istab c = true <-> c = 0x0B \/ c = 0x09).
Proof.
  unfold ishtab, isvtab, isnewline, isreturn, isaspace, isbel, isbackspace,
    isformfeed, istab, ishtab, isvtab.
  repeat match goal with |- _ /\ _ => split end; ranges.
Qed.

(** The [int] a predicate receives for a byte is the byte's code when that
    is an ASCII code, and is negative or above 127 otherwise: there every
    classifier is false. *)
Lemma int_of_char_ascii (char_signed : bool) (b : ascii) :
  0 <= int_of_char char_signed b <= 127 <->
  int_of_char char_signed b = chr b /\ 0 <= chr b <= 127.
Proof.
  assert (0 <= chr b < 256) as byte.
  { unfold chr. pose proof (N_ascii_bounded b) as bound. lia. }
  unfold int_of_char.
  destruct char_signed; simpl; [destruct (Z.leb_spec 128 (chr b))|]; lia.
Qed.

(** On the bytes of a buffer, whichever the signedness of [char]: print,
    cntrl and graph hold exactly on the bytes of their sets. *)
Lemma classifier_on_bytes (char_signed : bool) (b : ascii) :
  (isprint (int_of_char char_signed b) = true <-> 0x20 <= chr b <= 0x5F) /\
  (iscntrl (int_of_char char_signed b) = true <->
     0x00 <= chr b <= 0x1F \/ chr b = 0x7F) /\
  (isgraph (int_of_char char_signed b) = true <-> 0x21 <= chr b <= 0x7E).
Proof.
  rewrite isprint_range, iscntrl_range, isgraph_range.
  assert (0 <= chr b < 256) as byte.
  { unfold chr. pose proof (N_ascii_bounded b) as bound. lia. }
  unfold int_of_char.
  destruct char_signed; simpl; [destruct (Z.leb_spec 128 (chr b))|]; lia.
Qed.

Lemma tolower_in_range (c : Z) :
  isupper c = true ->
  - 2 ^ 31 <= c + chr "0" < 2 ^ 31 /\ - 2 ^ 31 <= c + chr "0" - 16 < 2 ^ 31.
Proof. intros up. apply isupper_range in up. literals. lia. Qed.

Lemma toupper_in_range (c : Z) :
  islower c = true ->
  - 2 ^ 31 <= c - chr "0" < 2 ^ 31 /\ - 2 ^ 31 <= c - chr "0" + 16 < 2 ^ 31.
Proof. intros low. apply islower_range in low. literals. lia. Qed.

(** C7.  Every classifier holds exactly on its documented set of codes:
    alnum on letters and digits, alpha on letters, cntrl on [0x00,0x1F] and
    0x7F, digit on [0x30,0x39], graph on [0x21,0x7E], lower on [0x61,0x7A],
    upper on [0x41,0x5A], print on [0x20,0x5F] (so not on [0x60,0x7E]),
    punct on graph without alnum, space on [0x09,0x0D] and 0x20, blank on
    0x20 and 0x09, xdigit on digits, [a-f] and [A-F], ascii on [0x00,0x7F],
    the single-byte extensions on their byte, xlower and xupper on lower
    and upper; and print, cntrl and graph take the stated values at each of
    the boundary bytes 0x00, 0x08, 0x09, 0x0D, 0x1F, 0x20, 0x21, 0x5F, 0x60,
    0x7E, 0x7F. *)
Theorem classifier_documented_sets (c : Z) :
  (isalnum c = true <->
     0x41 <= c <= 0x5A \/ 0x61 <= c <= 0x7A \/ 0x30 <= c <= 0x39) /\
  (isalpha c = true <-> 0x41 <= c <= 0x5A \/ 0x61 <= c <= 0x7A) /\
  (isdigit c = true <-> 0x30 <= c <= 0x39) /\
  (isupper c = true <-> 0x41 <= c <= 0x5A) /\
  (islower c = true <-> 0x61 <= c <= 0x7A) /\
  (iscntrl c = true <-> 0x00 <= c <= 0x1F \/ c = 0x7F) /\
  (isgraph c = true <-> 0x21 <= c <= 0x7E) /\
  (isprint c = true <-> 0x20 <= c <= 0x5F) /\
  (ispunct c = true <-> isgraph c = true /\ isalnum c = false) /\
  (isspace c = true <-> 0x09 <= c <= 0x0D \/ c = 0x20) /\
  (isblank c = true <-> c = 0x20 \/ c = 0x09) /\
  (isxdigit c = true <->
     0x30 <= c <= 0x39 \/ 0x61 <= c <= 0x66 \/ 0x41 <= c <= 0x46) /\
  (isascii c = true <-> 0x00 <= c <= 0x7F) /\
  (ishtab c = true <-> c = 0x09) /\
  (isvtab c = true <-> c = 0x0B) /\
  (isnewline c = true <-> c = 0x0A) /\
  (isreturn c = true <-> c = 0x0D) /\
  (isaspace c = true <-> c = 0x20) /\
  (isbel c = true <-> c = 0x07) /\
  (isbackspace c = true <-> c = 0x08) /\
  (isformfeed c = true <-> c = 0x0C) /\
  (istab c = true <-> c = 0x0B \/ c = 0x09) /\
  (isxlower c = true <-> 0x61 <= c <= 0x7A \/ 0x61 <= c <= 0x66) /\
  (isxupper c = true <-> 0x41 <= c <= 0x5A \/ 0x41 <= c <= 0x46) /\
  (0x60 <=? c) && (c <=? 0x7E) && isprint c = false /\
  map isprint boundary_bytes =
    [false; false; false; false; false; true; true; true; false; false; false] /\
  map iscntrl boundary_bytes =
    [true; true; true; true; true; false; false; false; false; false; true] /\
  map isgraph boundary_bytes =
    [false; false; false; false; false; false; true; true; true; true; false].
Proof.
  pose proof (single_byte_predicates c) as
    (ht & vt & nl & cr & sp & bel & bs & ff & tab).
  repeat match goal with |- _ /\ _ => split end;
    try assumption; try reflexivity.
  - apply isalnum_range.
  - apply isalpha_range.
  - apply isdigit_range.
  - apply isupper_range.
  - apply islower_range.
  - apply iscntrl_range.
  - apply isgraph_range.
  - apply isprint_range.
  - unfold ispunct. rewrite andb_true_iff, negb_true_iff. reflexivity.
  - apply isspace_range.
  - apply isblank_range.
  - apply isxdigit_range.
  - apply isascii_range.
  - apply isxlower_range.
  - apply isxupper_range.
  - unfold isprint. literals. comparisons; simpl; try reflexivity; lia.
Qed.

(** C6, as the code has it.  On an uppercase code [tolower] adds ['0' - 16],
    on a lowercase code [toupper] subtracts it, and this offset is 32, which
    is ['a' - 'A'], the case-folding offset of ASCII: [tolower] takes
    [A-Z] onto [a-z] and [toupper] takes [a-z] onto [A-Z].  Outside the
    respective class both return their argument. *)
Theorem case_conversion_offset (c : Z) :
  (isupper c = true ->
     tolower c = c + (chr "0" - 16) /\ islower (tolower c) = true) /\
  (islower c = true ->
     toupper c = c - (chr "0" - 16) /\ isupper (toupper c) = true) /\
  chr "0" - 16 = chr "a" - chr "A" /\
  (isupper c = false -> tolower c = c) /\
  (islower c = false -> toupper c = c).
Proof.
  unfold tolower, toupper.
  repeat match goal with |- _ /\ _ => split end;
    try reflexivity; intros class; rewrite class; try reflexivity.
  - split; [lia|]. apply isupper_range in class. apply islower_range.
    literals. lia.
  - split; [lia|]. apply islower_range in class. apply isupper_range.
    literals. lia.
Qed.

Lemma case_conversion_offset_at_A_and_z :
  (tolower (chr "A") = chr "A" + (chr "0" - 16) /\
   islower (tolower (chr "A")) = true) /\
  (toupper (chr "z") = chr "z" - (chr "0" - 16) /\
   isupper (toupper (chr "z")) = true) /\
  tolower (chr "z") = chr "z" /\
  toupper (chr "A") = chr "A".
Proof.
  pose proof (case_conversion_offset (chr "A")) as (up & _ & _ & _ & keep_up).
  pose proof (case_conversion_offset (chr "z")) as (_ & low & _ & keep_low & _).
  exact (conj (up eq_refl)
          (conj (low eq_refl) (conj (keep_low eq_refl) (keep_up eq_refl)))).
Defined.

(** The offset of [tolower] and [toupper] is not different from the
    case-folding offset of ASCII: both are 32, and ['A'] and ['a'] are
    taken to each other. *)
Lemma case_offset_is_the_ascii_one :
  chr "0" - 16 = chr "a" - chr "A" /\
  tolower (chr "A") = chr "a" /\
  toupper (chr "a") = chr "A".
Proof. repeat split. Qed.

(** ** Class removal *)

Lemma ignore_if_from (pred : ascii -> bool) (source buf : str) :
  fold_left (fun buf item => if negb (pred item) then push_back buf item else buf)
            source buf
  = buf ++ filter (fun item => negb (pred item)) source.
Proof.
  revert buf. induction source as [|item source IH]; intros buf; simpl.
  - symmetry. apply app_nil_r.
  - rewrite IH. destruct (pred item); simpl; [reflexivity|].
    unfold push_back. rewrite <- app_assoc. reflexivity.
Qed.

Lemma ignore_if_filter (source : str) (pred : ascii -> bool) :
  ignore_if source pred = filter (fun item => negb (pred item)) source.
Proof. unfold ignore_if. apply ignore_if_from. Qed.

Lemma ignore_and_append_filter (buf : str) (pred : ascii -> bool) :
  ignore_and_append buf pred = filter (fun item => negb (pred item)) buf.
Proof. unfold ignore_and_append. simpl. apply ignore_if_filter. Qed.

Lemma filter_twice {A : Type} (keep : A -> bool) (l : list A) :
  filter keep (filter keep l) = filter keep l.
Proof.
  induction l as [|x l IH]; simpl; [reflexivity|].
  destruct (keep x) eqn:kept; simpl; rewrite ?kept, IH; reflexivity.
Qed.

(** C8.  Removing a class twice is removing it once: [ignore_if] applied to
    its own result with the same predicate returns that result, and so does
    [ignore_and_append], the form in which [match_args] runs it on the
    buffer. *)
Theorem class_removal_idempotent (buf : str) (pred : ascii -> bool) :
  ignore_if (ignore_if buf pred) pred = ignore_if buf pred /\
  ignore_and_append (ignore_and_append buf pred) pred
  = ignore_and_append buf pred.
Proof.
  split.
  - rewrite !ignore_if_filter. apply filter_twice.
  - rewrite !ignore_and_append_filter. apply filter_twice.
Qed.

(** [match_args] is its table of tokens, run from the top. *)
Lemma match_args_table (char_signed : bool) (args buf : str) :
  match_args char_signed args buf
  = fold_left (fun buf entry =>
                 on_token char_signed args (fst entry) (snd entry) buf)
              class_tokens buf.
Proof. reflexivity. Qed.

Lemma on_tokens_filter (char_signed : bool) (args : str)
    (table : list (string * (Z -> bool))) (buf : str) :
  fold_left (fun buf entry =>
               on_token char_signed args (fst entry) (snd entry) buf)
            table buf
  = filter (fun b =>
              negb (existsb (fun entry =>
                               contains_this args (lit (fst entry))
                               && snd entry (int_of_char char_signed b))
                            table))
           buf.
Proof.
  revert buf. induction table as [|[token pred] table IH]; intros buf; simpl.
  - induction buf as [|b buf IHb]; simpl; congruence.
  - rewrite IH. unfold on_token.
    destruct (contains_this args (lit token)); simpl; [|reflexivity].
    rewrite ignore_and_append_filter.
    induction buf as [|b buf IHb]; simpl; [reflexivity|].
    destruct (pred (int_of_char char_signed b)); simpl;
      [apply IHb|].
    destruct (existsb _ table); simpl; rewrite IHb; reflexivity.
Qed.

(** The class-removal pass keeps exactly the bytes that no token of the
    pattern selects. *)
Lemma match_args_filter (char_signed : bool) (args buf : str) :
  match_args char_signed args buf
  = filter (fun b => negb (selected char_signed args b)) buf.
Proof. rewrite match_args_table. apply on_tokens_filter. Qed.

Lemma chr_byte (b : ascii) : 0 <= chr b < 256.
Proof. unfold chr. pose proof (N_ascii_bounded b). lia. Qed.

(** A byte is converted to an ASCII code exactly when it is that code. *)
Lemma int_of_char_eq (char_signed : bool) (b : ascii) (code : Z) :
  0 <= code <= 127 -> (int_of_char char_signed b = code <-> chr b = code).
Proof.
  intros ascii_code. pose proof (chr_byte b) as byte. unfold int_of_char.
  destruct char_signed; simpl; [destruct (Z.leb_spec 128 (chr b))|]; lia.
Qed.

Lemma selected_by_one_token (char_signed : bool) (token : string)
    (args : str) (b : ascii)
    (table : list (string * (Z -> bool))) :
  forallb (fun entry => String.eqb (fst entry) token
                        || negb (contains_this args (lit (fst entry))))
          table = true ->
  existsb (fun entry => contains_this args (lit (fst entry))
                        && snd entry (int_of_char char_signed b))
          table
  = existsb (fun entry => String.eqb (fst entry) token
                          && (contains_this args (lit token)
                              && snd entry (int_of_char char_signed b)))
            table.
Proof.
  induction table as [|[name pred] table IH]; simpl; [reflexivity|].
  intros others. apply andb_prop in others. destruct others as [this others].
  rewrite (IH others). f_equal.
  destruct (String.eqb_spec name token) as [same|]; simpl in *.
  - subst name. reflexivity.
  - apply negb_true_iff in this. rewrite this. reflexivity.
Qed.

(** A byte that satisfies the predicate of a token of the pattern is
    selected. *)
Lemma selected_intro (char_signed : bool) (args : str) (b : ascii)
    (token : string) (pred : Z -> bool) :
  In (token, pred) class_tokens ->
  contains_this args (lit token) = true ->
  pred (int_of_char char_signed b) = true ->
  selected char_signed args b = true.
Proof.
  intros listed present holds. unfold selected. apply existsb_exists.
  exists (token, pred). simpl. rewrite present, holds. auto.
Qed.

Ltac in_table := unfold class_tokens; simpl; auto 20.

(** ** The [[:vtab:]] token (C1) *)

(** C1 fails on the code: the [[:vtab:]] block of [match_args] calls
    [ishtab], as the [[:htab:]] block above it does, and never [isvtab].
    With the pattern [[:vtab:]] a vertical tab (0x0B) stays in the buffer
    and a horizontal tab (0x09) is deleted. *)
Theorem vtab_token_calls_ishtab (char_signed : bool) :
  contains_this (lit "[:vtab:]") (lit "[:vtab:]") = true /\
  isvtab (int_of_char char_signed "011") = true /\
  match_args char_signed (lit "[:vtab:]") ["011"%char] = ["011"%char] /\
  match_args char_signed (lit "[:vtab:]")
             ["a"; "011"; "b"; "009"; "c"]%char
  = ["a"; "011"; "b"; "c"]%char.
Proof. destruct char_signed; repeat split. Qed.

(** Whatever else the pattern holds, [[:vtab:]] deletes the horizontal
    tabs of the buffer. *)
Lemma vtab_token_deletes_htab (char_signed : bool) (args buf : str) :
  contains_this args (lit "[:vtab:]") = true ->
  forallb (fun b => negb (chr b =? 0x09)) (match_args char_signed args buf)
  = true.
Proof.
  intros vtab. rewrite match_args_filter. apply forallb_forall.
  intros b kept. apply filter_In in kept. destruct kept as [_ kept].
  apply negb_true_iff in kept. apply negb_true_iff, Z.eqb_neq. intros tab.
  rewrite (selected_intro char_signed args b "[:vtab:]" ishtab) in kept;
    [discriminate|in_table|exact vtab|].
  apply Z.eqb_eq. apply (int_of_char_eq char_signed b 0x09); [lia|exact tab].
Qed.

(** ** The [[:space:]] token (C2) *)

(** C2 fails on the code: the [[:space:]] block of [match_args] calls
    [isaspace], the predicate of the byte 0x20 alone, and never [isspace],
    which every other token of a POSIX class name has its counterpart of.
    With the pattern [[:space:]] the bytes 0x09 to 0x0D, all of which
    [isspace] accepts, stay in the buffer; only the byte 0x20 goes. *)
Theorem space_token_calls_isaspace (char_signed : bool) :
  contains_this (lit "[:space:]") (lit "[:space:]") = true /\
  isspace (int_of_char char_signed "009") = true /\
  isaspace (int_of_char char_signed "009") = false /\
  match_args char_signed (lit "[:space:]") ["009"%char] = ["009"%char] /\
  forallb (fun b => isspace (int_of_char char_signed b))
          ["009"; "010"; "011"; "012"; "013"; " "]%char = true /\
  match_args char_signed (lit "[:space:]")
             ["009"; "010"; "011"; "012"; "013"; " "]%char
  = ["009"; "010"; "011"; "012"; "013"]%char.
Proof. destruct char_signed; repeat split. Qed.

(** In general: alone in the pattern, the [[:space:]] token takes out the
    bytes 0x20 and no other, so every byte of 0x09 to 0x0D is kept. *)
Lemma space_token_alone (char_signed : bool) (args buf : str) :
  contains_this args (lit "[:space:]") = true ->
  no_token_but "[:space:]" args = true ->
  match_args char_signed args buf
  = filter (fun b => negb (chr b =? 0x20)) buf.
Proof.
  intros space alone. rewrite match_args_filter. apply filter_ext. intros b.
  f_equal. unfold selected.
  rewrite (selected_by_one_token char_signed "[:space:]" args b
             class_tokens alone).
  rewrite space. simpl. rewrite orb_false_r. unfold isaspace.
  destruct (Z.eqb_spec (chr b) 0x20) as [sp|other].
  - apply Z.eqb_eq. apply (int_of_char_eq char_signed b 0x20); [lia|].
    exact sp.
  - apply Z.eqb_neq. intros sp. apply other.
    apply (int_of_char_eq char_signed b 0x20); [lia|]. exact sp.
Qed.

(** ** The literal residue (C3) *)

Lemma starts_with_length (s key : str) :
  starts_with s key = true -> (length key <= length s)%nat.
Proof.
  revert s. induction key as [|k key IH]; intros [|x s]; simpl;
    try lia; try discriminate.
  intros both. apply andb_prop in both. destruct both as [_ rest].
  apply IH in rest. lia.
Qed.

Lemma first_occurrence_bound (s key : str) (i : nat) :
  first_occurrence s key = Some i -> (i + length key <= length s)%nat.
Proof.
  revert i. induction s as [|x s IH]; intros i; cbn [first_occurrence].
  - destruct (starts_with [] key) eqn:here; intros [= <-].
    apply starts_with_length in here. simpl in *. lia.
  - destruct (starts_with (x :: s) key) eqn:here.
    + intros [= <-]. apply starts_with_length in here. simpl in *. lia.
    + destruct (first_occurrence s key) as [i'|]; simpl; intros [= <-].
      specialize (IH i' eq_refl). simpl. lia.
Qed.

Lemma last_occurrence_bound (s key : str) (j : nat) :
  last_occurrence s key = Some j -> (j + length key <= length s)%nat.
Proof.
  revert j. induction s as [|x s IH]; intros j; cbn [last_occurrence].
  - destruct (starts_with [] key) eqn:here; intros [= <-].
    apply starts_with_length in here. simpl in *. lia.
  - destruct (last_occurrence s key) as [j'|].
    + intros [= <-]. specialize (IH j' eq_refl). simpl. lia.
    + destruct (starts_with (x :: s) key) eqn:here; intros [= <-].
      apply starts_with_length in here. simpl in *. lia.
Qed.

(** [replace] is called at the position [find] returned, which lies within
    the pattern: [main] never sees it throw. *)
Lemma residue_returns (arg_v1 : str) : exists r, residue arg_v1 = Some r.
Proof.
  unfold residue, find.
  destruct (first_occurrence arg_v1 (lit "[:")) as [i|] eqn:first.
  - destruct (negb (Z.of_nat i =? npos)); [|eauto].
    apply first_occurrence_bound in first. unfold replace.
    destruct (Z.ltb_spec (size arg_v1) (Z.of_nat i)) as [beyond|]; [|eauto].
    unfold size in beyond. lia.
  - rewrite Z.eqb_refl. simpl. eauto.
Qed.

(** A pattern without ["[:"] is its own residue. *)
Lemma residue_without_delimiter (arg_v1 : str) :
  contains_this arg_v1 (lit "[:") = false -> residue arg_v1 = Some arg_v1.
Proof.
  unfold contains_this, residue. intros absent. rewrite absent. reflexivity.
Qed.

(** What [main] takes out of a pattern that contains ["[:"] at [i] first
    and [":]"] at [j] last: the characters from [i] on, [j + 2] of them or
    as many as there are. *)
Lemma residue_span (arg_v1 : str) (i j : nat) :
  first_occurrence arg_v1 (lit "[:") = Some i ->
  last_occurrence arg_v1 (lit ":]") = Some j ->
  size arg_v1 + 2 < size_max ->
  residue arg_v1 = Some (erase_range arg_v1 i (i + (j + 2))).
Proof.
  intros first last fits.
  pose proof (first_occurrence_bound _ _ _ first) as bound_i.
  pose proof (last_occurrence_bound _ _ _ last) as bound_j.
  unfold residue, find, rfind, replace, size_add, npos, size in *.
  rewrite first, last. simpl length in *.
  destruct (Z.eqb_spec (Z.of_nat i) (size_max - 1)) as [huge|_]; [lia|].
  simpl negb. cbv iota.
  destruct (Z.ltb_spec (Z.of_nat (length arg_v1)) (Z.of_nat i)); [lia|].
  rewrite Z.mod_small by lia. rewrite Nat2Z.id. unfold erase_range, lit.
  simpl app.
  destruct (Z.le_ge_cases (Z.of_nat j + 2)
              (Z.of_nat (length arg_v1) - Z.of_nat i)) as [inside|outside].
  - rewrite Z.min_l by lia.
    replace (Z.to_nat (Z.of_nat i + (Z.of_nat j + 2)))
      with (i + (j + 2))%nat by lia.
    reflexivity.
  - rewrite Z.min_r by lia. rewrite !skipn_all2 by lia. reflexivity.
Qed.

(** C3 fails on the code: [main] passes [rfind(":]") + 2] to [replace] as
    the number of characters to take out, counted from the first ["[:"],
    and not as the position at which the span ends.  In ["x[:digit:]ab"]
    the first ["[:"] is at 1 and the last [":]"] at 8: the span of the claim
    is [1, 10) and leaves ["xab"], the code takes out [1, 11) and leaves
    ["xb"]. *)
Theorem residue_counts_from_the_first_delimiter :
  find (lit "x[:digit:]ab") (lit "[:") = 1 /\
  rfind (lit "x[:digit:]ab") (lit ":]") = 8 /\
  erase_range (lit "x[:digit:]ab") 1 (8 + 2) = lit "xab" /\
  erase_range (lit "x[:digit:]ab") 1 (1 + (8 + 2)) = lit "xb" /\
  residue (lit "x[:digit:]ab") = Some (lit "xb").
Proof. repeat split. Qed.

(** ** Literal removal *)

Lemma std_find_le (s : str) (e : ascii) : (std_find s e <= length s)%nat.
Proof.
  induction s as [|x s IH]; simpl; [lia|].
  destruct (Ascii.eqb x e); simpl; lia.
Qed.

(** [std_find] stops at the leftmost occurrence: the byte there is [e] and
    no byte before it is. *)
Lemma std_find_leftmost (s : str) (e : ascii) :
  (std_find s e < length s)%nat ->
  nth_error s (std_find s e) = Some e /\
  forall j, (j < std_find s e)%nat -> nth_error s j <> Some e.
Proof.
  induction s as [|x s IH]; simpl; [lia|].
  destruct (Ascii.eqb_spec x e) as [same|other]; intros found.
  - subst x. split; [reflexivity|]. intros j before. lia.
  - destruct IH as [at_e before_e]; [lia|]. split; [exact at_e|].
    intros [|j] before; simpl; [congruence|]. apply before_e. lia.
Qed.

Lemma std_find_absent (s : str) (e : ascii) :
  std_find s e = length s -> occurrences s e = 0%nat.
Proof.
  unfold occurrences. induction s as [|x s IH]; simpl; [reflexivity|].
  destruct (Ascii.eqb_spec x e) as [same|other]; [discriminate|].
  intros [= absent]. destruct (ascii_dec x e); [contradiction|]. auto.
Qed.

Lemma remove_leftmost_none (e : ascii) (s : str) : remove_leftmost 0 e s = s.
Proof. destruct s; reflexivity. Qed.

Lemma remove_leftmost_absent (n : nat) (e : ascii) (s : str) :
  std_find s e = length s -> remove_leftmost n e s = s.
Proof.
  destruct n as [|n]; [intros _; apply remove_leftmost_none|].
  induction s as [|x s IH]; simpl; [reflexivity|].
  destruct (Ascii.eqb x e); [discriminate|].
  intros [= absent]. rewrite IH by exact absent. reflexivity.
Qed.

(** One more deletion from the left is the deletion of the first
    occurrence followed by the others. *)
Lemma remove_leftmost_erase (n : nat) (e : ascii) (s : str) :
  (std_find s e < length s)%nat ->
  remove_leftmost (S n) e s
  = remove_leftmost n e (erase_at s (std_find s e)).
Proof.
  induction s as [|x s IH]; simpl; [lia|].
  destruct (Ascii.eqb x e) eqn:head; intros found.
  - unfold erase_at. simpl. reflexivity.
  - rewrite IH by lia. unfold erase_at. simpl.
    destruct n as [|n]; simpl; [|rewrite head; reflexivity].
    rewrite remove_leftmost_none. reflexivity.
Qed.

Lemma while_find_step (e : ascii) (times : Z) (source : str) :
  while_find e times source
  = if negb (times =? 0)
       && negb (Nat.eqb (std_find source e) (length source))
    then while_find e (times - 1) (erase_at source (std_find source e))
    else (times, source).
Proof.
  funelim (while_find e times source);
    match goal with
    | guard : _ && _ = _ |- _ => rewrite guard; reflexivity
    end.
Qed.

(** The loop of [look_for] for one character, against the specification:
    with a limit [times >= 0] it leaves the buffer without the leftmost
    [times] occurrences of [e], or without all of them when there are
    fewer. *)
Lemma while_find_remove_leftmost (e : ascii) (times : Z) (source : str) :
  0 <= times ->
  snd (while_find e times source)
  = remove_leftmost (Z.to_nat times) e source.
Proof.
  funelim (while_find e times source); intros bound.
  - match goal with
    | guard : _ && _ = true |- _ =>
        destruct (andb_prop _ _ guard) as [more found]
    end.
    apply negb_true_iff, Z.eqb_neq in more.
    apply negb_true_iff, Nat.eqb_neq in found.
    pose proof (std_find_le source e) as le.
    match goal with
    | IH : _ -> snd _ = _ |- _ => rewrite IH by lia
    end.
    replace (Z.to_nat times) with (S (Z.to_nat (times - 1))) by lia.
    symmetry. apply remove_leftmost_erase. lia.
  - match goal with
    | guard : _ && _ = false |- _ =>
        destruct (proj1 (andb_false_iff _ _) guard) as [stop|absent]
    end.
    + apply negb_false_iff, Z.eqb_eq in stop. subst times.
      simpl. symmetry. apply remove_leftmost_none.
    + apply negb_false_iff, Nat.eqb_eq in absent.
      simpl. symmetry. apply remove_leftmost_absent. exact absent.
Qed.

(** What [remove_leftmost] does to the number of occurrences, and to the
    length. *)
Lemma remove_leftmost_occurrences (n : nat) (e : ascii) (s : str) :
  occurrences (remove_leftmost n e s) e
  = (occurrences s e - Nat.min (occurrences s e) n)%nat.
Proof.
  unfold occurrences. revert n. induction s as [|x s IH]; intros n.
  - destruct n; reflexivity.
  - destruct n as [|n]; [simpl; lia|]. simpl.
    destruct (Ascii.eqb_spec x e) as [same|other].
    + rewrite IH. destruct (ascii_dec x e); [|contradiction]. lia.
    + simpl. rewrite IH. destruct (ascii_dec x e); [contradiction|].
      reflexivity.
Qed.

Lemma remove_leftmost_others (n : nat) (e d : ascii) (s : str) :
  d <> e -> occurrences (remove_leftmost n e s) d = occurrences s d.
Proof.
  intros other. unfold occurrences. revert n.
  induction s as [|x s IH]; intros n.
  - destruct n; reflexivity.
  - destruct n as [|n]; [reflexivity|]. simpl.
    destruct (Ascii.eqb_spec x e) as [same|differ].
    + rewrite IH. subst x. destruct (ascii_dec e d); [congruence|].
      reflexivity.
    + simpl. rewrite IH. reflexivity.
Qed.

Lemma remove_leftmost_length (n : nat) (e : ascii) (s : str) :
  (length (remove_leftmost n e s) + Nat.min (occurrences s e) n
   = length s)%nat.
Proof.
  unfold occurrences. revert n. induction s as [|x s IH]; intros n.
  - destruct n; reflexivity.
  - destruct n as [|n]; [simpl; lia|]. simpl.
    destruct (Ascii.eqb_spec x e) as [same|other].
    + specialize (IH n). destruct (ascii_dec x e); [|contradiction]. lia.
    + simpl. specialize (IH (S n)).
      destruct (ascii_dec x e); [contradiction|]. lia.
Qed.

(** The [erase] at the end of every iteration of the [for] loop takes out
    the empty range from [begin()] to [begin()]. *)
Lemma erase_empty_range (matches : str) : erase_range matches 0 0 = matches.
Proof. reflexivity. Qed.

Lemma for_matches_passes (times : Z) (matches : str) :
  forall (remaining i : nat) (source : str),
    (i + remaining = length matches)%nat ->
    for_matches remaining i times source matches
    = (passes times (skipn i matches) source, matches).
Proof.
  induction remaining as [|remaining IH]; intros i source total; simpl.
  - rewrite skipn_all2 by lia. reflexivity.
  - destruct (nth_error matches i) as [e|] eqn:current.
    + destruct (while_find e times source) as [left source'] eqn:pass.
      rewrite erase_empty_range, IH by lia.
      assert (skipn i matches = e :: skipn (S i) matches) as here.
      { clear - current. revert i current.
        induction matches as [|x m IHm]; intros [|i]; simpl;
          try discriminate.
        - intros [= ->]. reflexivity.
        - apply IHm. }
      rewrite here. unfold passes. simpl. rewrite pass. reflexivity.
    + apply nth_error_None in current. lia.
Qed.

(** [look_for] with a limit that is not negative returns the buffer after
    all the passes, and the string of characters as it received it. *)
Lemma look_for_passes (source matches : str) (times : Z) :
  0 <= times ->
  look_for source matches times
  = Returned (passes times matches source) (passes times matches source)
             matches.
Proof.
  intros bound. unfold look_for.
  destruct (Z.ltb_spec times 0); [lia|].
  rewrite for_matches_passes by reflexivity. reflexivity.
Qed.

Lemma passes_app (times : Z) (pre post source : str) :
  passes times (pre ++ post) source
  = passes times post (passes times pre source).
Proof. unfold passes. apply fold_left_app. Qed.

Lemma while_find_no_limit (e : ascii) (source : str) :
  while_find e 0 source = (0, source).
Proof. rewrite while_find_step. reflexivity. Qed.

Lemma passes_zero (matches source : str) : passes 0 matches source = source.
Proof.
  unfold passes. induction matches as [|e matches IH]; simpl; [reflexivity|].
  rewrite while_find_no_limit. exact IH.
Qed.

(** Asking for more deletions than there are occurrences is asking for
    all of them. *)
Lemma remove_leftmost_min (n : nat) (e : ascii) (s : str) :
  remove_leftmost n e s
  = remove_leftmost (Nat.min (occurrences s e) n) e s.
Proof.
  unfold occurrences. revert n. induction s as [|x s IH]; intros n.
  - destruct n; reflexivity.
  - destruct n as [|n]; [rewrite Nat.min_0_r; reflexivity|].
    cbn [count_occ remove_leftmost].
    destruct (Ascii.eqb_spec x e) as [same|other].
    + destruct (ascii_dec x e); [|contradiction].
      rewrite <- Nat.succ_min_distr. cbn [remove_leftmost].
      destruct (Ascii.eqb_spec x e); [|contradiction]. apply IH.
    + destruct (ascii_dec x e); [contradiction|].
      destruct (Nat.min (count_occ ascii_dec s e) (S n)) as [|m] eqn:least.
      * rewrite IH, least, remove_leftmost_none. reflexivity.
      * cbn [remove_leftmost].
        destruct (Ascii.eqb_spec x e); [contradiction|].
        rewrite IH, least. reflexivity.
Qed.

Lemma passes_others (times : Z) (matches source : str) (d : ascii) :
  0 <= times -> ~ In d matches ->
  occurrences (passes times matches source) d = occurrences source d.
Proof.
  intros bound. unfold passes. revert source.
  induction matches as [|e matches IH]; intros source absent; simpl;
    [reflexivity|].
  rewrite IH by (intros later; apply absent; right; exact later).
  rewrite while_find_remove_leftmost by exact bound.
  apply remove_leftmost_others. intros same. apply absent. left. auto.
Qed.

(** C4, as the code has it.  Every character of the residue has a pass of
    its own, in the order of the residue.  With a limit [N >= 0], let
    [before] be the buffer when the pass for a character [c] at some place
    of the residue starts, and [k] the number of occurrences of [c] in it.
    That pass takes out the leftmost [min k N] occurrences of [c] and
    nothing else, so that [k - min k N] are left.  The limit is the full
    [N] again for the pass that comes next: the passes do not share it.
    When [c] stands once in the residue, [k] is the number of its
    occurrences in the buffer [look_for] received and [k - min k N] that
    in the buffer it returns. *)
Theorem literal_removal_bounded (source pre post : str) (c : ascii) (N : Z) :
  0 <= N ->
  let before := passes N pre source in
  let after := passes N (pre ++ [c]) source in
  let final := passes N (pre ++ c :: post) source in
  let k := Z.of_nat (occurrences before c) in
  look_for source pre N = Returned before before pre /\
  look_for source (pre ++ [c]) N = Returned after after (pre ++ [c]) /\
  look_for source (pre ++ c :: post) N
  = Returned final final (pre ++ c :: post) /\
  look_for after post N = Returned final final post /\
  after = snd (while_find c N before) /\
  after = remove_leftmost (Z.to_nat (Z.min k N)) c before /\
  Z.of_nat (occurrences after c) = k - Z.min k N /\
  Z.of_nat (length before) - Z.of_nat (length after) = Z.min k N /\
  (forall d, d <> c -> occurrences after d = occurrences before d) /\
  (~ In c pre -> occurrences before c = occurrences source c) /\
  (~ In c post -> occurrences final c = occurrences after c).
Proof.
  intros bound before after final k.
  assert (after = snd (while_find c N before)) as pass.
  { unfold after, before. rewrite passes_app. reflexivity. }
  assert (final = passes N post after) as rest.
  { unfold final, after.
    change (pre ++ c :: post) with (pre ++ [c] ++ post).
    rewrite app_assoc, passes_app. reflexivity. }
  assert (after = remove_leftmost (Z.to_nat (Z.min k N)) c before) as left.
  { rewrite pass, while_find_remove_leftmost by exact bound.
    rewrite remove_leftmost_min. f_equal. unfold k. lia. }
  repeat match goal with |- _ /\ _ => split end.
  - apply look_for_passes. exact bound.
  - apply look_for_passes. exact bound.
  - apply look_for_passes. exact bound.
  - rewrite rest. apply look_for_passes. exact bound.
  - exact pass.
  - exact left.
  - rewrite left, remove_leftmost_occurrences. unfold k. lia.
  - rewrite left.
    pose proof (remove_leftmost_length (Z.to_nat (Z.min k N)) c before).
    unfold k in *. lia.
  - intros d other. rewrite left. apply remove_leftmost_others. exact other.
  - intros once. apply passes_others; assumption.
  - intros once. rewrite rest. apply passes_others; assumption.
Qed.

Lemma literal_removal_bounded_aabbbcc :
  let before := passes 2 (lit "c") (lit "aabbbcc") in
  let after := passes 2 (lit "c" ++ ["b"%char]) (lit "aabbbcc") in
  let final := passes 2 (lit "c" ++ "b"%char :: lit "a") (lit "aabbbcc") in
  let k := Z.of_nat (occurrences before "b") in
  look_for (lit "aabbbcc") (lit "c") 2 = Returned before before (lit "c") /\
  look_for (lit "aabbbcc") (lit "c" ++ ["b"%char]) 2
  = Returned after after (lit "c" ++ ["b"%char]) /\
  look_for (lit "aabbbcc") (lit "c" ++ "b"%char :: lit "a") 2
  = Returned final final (lit "c" ++ "b"%char :: lit "a") /\
  look_for after (lit "a") 2 = Returned final final (lit "a") /\
  after = snd (while_find "b" 2 before) /\
  after = remove_leftmost (Z.to_nat (Z.min k 2)) "b" before /\
  Z.of_nat (occurrences after "b") = k - Z.min k 2 /\
  Z.of_nat (length before) - Z.of_nat (length after) = Z.min k 2 /\
  (forall d, d <> "b"%char -> occurrences after d = occurrences before d) /\
  (~ In "b"%char (lit "c") ->
   occurrences before "b" = occurrences (lit "aabbbcc") "b") /\
  (~ In "b"%char (lit "a") -> occurrences final "b" = occurrences after "b").
Proof.
  exact (literal_removal_bounded (lit "aabbbcc") (lit "c") (lit "a") "b" 2
           ltac:(lia)).
Defined.

(** The second scenario of the specification: two of the three [b] go,
    the leftmost first. *)
Example look_for_aabbbcc :
  look_for (lit "aabbbcc") (lit "b") 2
  = Returned (lit "aabcc") (lit "aabcc") (lit "b").
Proof. reflexivity. Qed.

(** C4 fails on the code as it is stated: a character that stands twice
    in the residue has two passes, each with the full limit.  Of the four
    [b] of ["bbbb"] the residue ["bb"] with the limit 1 takes out two, and
    not [min 4 1 = 1]: two are left, and not three. *)
Lemma look_for_twice_the_same :
  look_for (lit "bbbb") (lit "bb") 1
  = Returned (lit "bb") (lit "bb") (lit "bb") /\
  occurrences (lit "bbbb") "b" = 4%nat /\
  occurrences (lit "bb") "b" = 2%nat /\
  4 - Z.min 4 1 = 3.
Proof. repeat split. Qed.

(** C5.  With a negative limit [look_for] ends in [fatal_errorx], that is
    with the message on [std::cerr] and the exit status 1, and both the
    buffer and the residue are then as they were passed in.  The limit is
    not taken for zero: with the limit 0 the call returns. *)
Theorem look_for_rejects_negative_limit (source matches : str) (N : Z) :
  N < 0 ->
  look_for source matches N
  = Exited 1 ("error: size of how many, cannot be less than 0." ++ newline)
           source matches /\
  look_for source matches 0 = Returned source source matches.
Proof.
  intros negative. split.
  - unfold look_for. destruct (Z.ltb_spec N 0); [reflexivity|lia].
  - rewrite look_for_passes by lia. rewrite passes_zero. reflexivity.
Qed.

Lemma look_for_rejects_negative_limit_minus_one :
  look_for (lit "aabbbcc") (lit "b") (-1)
  = Exited 1 ("error: size of how many, cannot be less than 0." ++ newline)
           (lit "aabbbcc") (lit "b") /\
  look_for (lit "aabbbcc") (lit "b") 0
  = Returned (lit "aabbbcc") (lit "aabbbcc") (lit "b").
Proof.
  exact (look_for_rejects_negative_limit (lit "aabbbcc") (lit "b") (-1)
           ltac:(lia)).
Defined.

(** C10.  [look_for] with a limit [N >= 0] returns, and the residue is then
    what it was on entry: the [erase] of every iteration takes out the
    empty range from [begin()] to [begin()]. *)
Theorem look_for_leaves_matches (source matches : str) (N : Z) :
  0 <= N ->
  (exists out, look_for source matches N = Returned out out matches) /\
  erase_range matches 0 0 = matches.
Proof.
  intros bound. split; [|apply erase_empty_range].
  exists (passes N matches source). apply look_for_passes. exact bound.
Qed.

Lemma look_for_leaves_matches_si :
  (exists out,
     look_for (lit "mississippi") (lit "si") 3 = Returned out out (lit "si")) /\
  erase_range (lit "si") 0 0 = lit "si".
Proof.
  exact (look_for_leaves_matches (lit "mississippi") (lit "si") 3 ltac:(lia)).
Defined.

(** ** The order of the bytes that stay (C9) *)

Lemma subsequence_refl {A : Type} (s : list A) : subsequence s s.
Proof. induction s; constructor; assumption. Qed.

Lemma subsequence_trans {A : Type} (a b c : list A) :
  subsequence a b -> subsequence b c -> subsequence a c.
Proof.
  intros ab bc. revert a ab.
  induction bc as [|x b c bc IH|x b c bc IH]; intros a ab.
  - exact ab.
  - inversion ab; subst.
    + apply subsequence_keep. apply IH. assumption.
    + apply subsequence_delete. apply IH. assumption.
  - apply subsequence_delete. apply IH. exact ab.
Qed.

Lemma subsequence_filter {A : Type} (keep : A -> bool) (s : list A) :
  subsequence (filter keep s) s.
Proof.
  induction s as [|x s IH]; simpl; [constructor|].
  destruct (keep x); constructor; exact IH.
Qed.

Lemma subsequence_remove_leftmost (n : nat) (e : ascii) (s : str) :
  subsequence (remove_leftmost n e s) s.
Proof.
  revert n. induction s as [|x s IH]; intros [|n]; simpl;
    try apply subsequence_refl.
  destruct (Ascii.eqb x e); constructor; apply IH.
Qed.

Lemma subsequence_passes (times : Z) (matches source : str) :
  0 <= times -> subsequence (passes times matches source) source.
Proof.
  intros bound. unfold passes. revert source.
  induction matches as [|e matches IH]; intros source; simpl.
  - apply subsequence_refl.
  - eapply subsequence_trans; [apply IH|].
    rewrite while_find_remove_leftmost by exact bound.
    apply subsequence_remove_leftmost.
Qed.

(** What a subsequence is, by positions: the bytes of [out] are bytes of
    [s], no more often than in [s], and [out] is no longer than [s]. *)
Lemma subsequence_length {A : Type} (out s : list A) :
  subsequence out s -> (length out <= length s)%nat.
Proof. induction 1; simpl; lia. Qed.

Lemma subsequence_In {A : Type} (out s : list A) (x : A) :
  subsequence out s -> In x out -> In x s.
Proof.
  induction 1 as [|y out s sub IH|y out s sub IH]; simpl; intuition.
Qed.

(** C9.  Neither pass reorders the buffer.  For every predicate the result
    of [ignore_if] is a subsequence of its argument, and so is the result
    of [match_args] for every pattern; with a limit [N >= 0] [look_for]
    returns a subsequence of its buffer for every residue; and [main]
    prints a subsequence of the buffer it has read. *)
Theorem removal_preserves_order (char_signed : bool) (buf args : str)
    (pred : ascii -> bool) (matches : str) (N : Z) :
  0 <= N ->
  subsequence (ignore_if buf pred) buf /\
  subsequence (match_args char_signed args buf) buf /\
  (exists out,
     look_for buf matches N = Returned out out matches /\
     subsequence out buf) /\
  (exists out,
     main_core char_signed buf args N = Printed out /\
     subsequence out (match_args char_signed args buf) /\
     subsequence out buf).
Proof.
  intros bound.
  assert (subsequence (match_args char_signed args buf) buf) as classes.
  { rewrite match_args_filter. apply subsequence_filter. }
  repeat match goal with |- _ /\ _ => split end.
  - rewrite ignore_if_filter. apply subsequence_filter.
  - exact classes.
  - exists (passes N matches buf). split.
    + apply look_for_passes. exact bound.
    + apply subsequence_passes. exact bound.
  - unfold main_core. destruct (residue_returns args) as [literals ->].
    rewrite look_for_passes by exact bound.
    eexists. split; [reflexivity|].
    assert (subsequence
              (passes N literals (match_args char_signed args buf))
              (match_args char_signed args buf)) as literal_pass.
    { apply subsequence_passes. exact bound. }
    split; [exact literal_pass|].
    eapply subsequence_trans; [exact literal_pass|exact classes].
Qed.

Lemma removal_preserves_order_third_scenario :
  subsequence (ignore_if (lit "A1 B2 C3") (fun b => isupper (chr b)))
              (lit "A1 B2 C3") /\
  subsequence (match_args true (lit "l[:upper:][:blank:]") (lit "A1 B2 C3"))
              (lit "A1 B2 C3") /\
  (exists out,
     look_for (lit "A1 B2 C3") (lit "2") 1 = Returned out out (lit "2") /\
     subsequence out (lit "A1 B2 C3")) /\
  (exists out,
     main_core true (lit "A1 B2 C3") (lit "l[:upper:][:blank:]") 1
     = Printed out /\
     subsequence out
       (match_args true (lit "l[:upper:][:blank:]") (lit "A1 B2 C3")) /\
     subsequence out (lit "A1 B2 C3")).
Proof.
  exact (removal_preserves_order true (lit "A1 B2 C3")
           (lit "l[:upper:][:blank:]") (fun b => isupper (chr b)) (lit "2") 1
           ltac:(lia)).
Defined.

(** ** The scenarios of the specification *)

Example scenario_digits (char_signed : bool) :
  main_core char_signed (lit "Hello123 World!") (lit "[:digit:]") (2 ^ 63 - 1)
  = Printed (lit "Hello World!").
Proof. destruct char_signed; reflexivity. Qed.

Example scenario_two_b (char_signed : bool) :
  main_core char_signed (lit "aabbbcc") (lit "b") 2 = Printed (lit "aabcc").
Proof. destruct char_signed; reflexivity. Qed.

Example scenario_upper_blank (char_signed : bool) :
  match_args char_signed (lit "l[:upper:][:blank:]") (lit "A1 B2 C3")
  = lit "123" /\
  residue (lit "l[:upper:][:blank:]") = Some (lit "l") /\
  main_core char_signed (lit "A1 B2 C3") (lit "l[:upper:][:blank:]") 1
  = Printed (lit "123").
Proof. destruct char_signed; repeat split. Qed.

Example scenario_mississippi (char_signed : bool) :
  main_core char_signed (lit "mississippi") (lit "si") (2 ^ 63 - 1)
  = Printed (lit "mpp").
Proof. destruct char_signed; reflexivity. Qed.

(** * Further properties of the code *)

(** ** The classifier library *)

(** A hypothesis on the value of a classifier, as a condition on the code. *)
Ltac class_range H :=
  first
    [ rewrite isalnum_range in H | rewrite isalpha_range in H
    | rewrite iscntrl_range in H | rewrite isdigit_range in H
    | rewrite isgraph_range in H | rewrite islower_range in H
    | rewrite isupper_range in H | rewrite isprint_range in H
    | rewrite ispunct_range in H | rewrite isspace_range in H
    | rewrite isblank_range in H | rewrite isxdigit_range in H
    | rewrite isxlower_range in H | rewrite isxupper_range in H
    | rewrite isascii_range in H
    | rewrite (proj1 (proj2 (proj2 (proj2 (proj2
                 (single_byte_predicates _)))))) in H
    | rewrite (proj1 (single_byte_predicates _)) in H
    | rewrite (proj1 (proj2 (single_byte_predicates _))) in H
    | rewrite (proj1 (proj2 (proj2 (single_byte_predicates _)))) in H ].

Ltac class_ranges :=
  repeat match goal with
         | H : _ = true |- _ => progress class_range H
         | H : _ = false |- _ =>
             apply not_true_iff_false in H; progress class_range H
         end.

(** Case analysis on the value of every classifier applied to [c]. *)
Ltac by_classes c :=
  repeat match goal with
         | |- context [?f c] =>
             match type of (f c) with
             | bool => destruct (f c) eqn:?
             end
         end;
  simpl; try reflexivity; exfalso; class_ranges; lia.

(** X1.  The control codes, the space and the graphic codes partition
    ASCII: a code is ASCII exactly when [iscntrl], [isaspace] or [isgraph]
    accepts it, and no code is accepted by two of them. *)
Theorem ascii_partition (c : Z) :
  isascii c = iscntrl c || isaspace c || isgraph c /\
  iscntrl c && isaspace c = false /\
  iscntrl c && isgraph c = false /\
  isaspace c && isgraph c = false.
Proof. repeat split; by_classes c. Qed.

(** X2.  How the classes lie in each other: alnum is alpha or digit, alpha
    is upper or lower, graph is alnum or punct and no code is both; every
    hexadecimal digit is alphanumeric, every blank and every tab is a
    space, every printing code is the space or graphic, and upper, lower
    and digit are pairwise disjoint. *)
Theorem classifier_hierarchy (c : Z) :
  isalnum c = isalpha c || isdigit c /\
  isalpha c = isupper c || islower c /\
  isgraph c = isalnum c || ispunct c /\
  isalnum c && ispunct c = false /\
  isxdigit c && negb (isalnum c) = false /\
  isblank c && negb (isspace c) = false /\
  istab c && negb (isspace c) = false /\
  isprint c && negb (isaspace c || isgraph c) = false /\
  isupper c && islower c = false /\
  isupper c && isdigit c = false /\
  islower c && isdigit c = false.
Proof.
  unfold istab. repeat match goal with |- _ /\ _ => split end; by_classes c.
Qed.

(** X3.  [isxlower] and [isxupper] are [islower] and [isupper]: the range
    of the hexadecimal letters that each adds lies within the letters. *)
Theorem hex_case_classes (c : Z) :
  isxlower c = islower c /\ isxupper c = isupper c.
Proof. split; by_classes c. Qed.

Lemma tolower_cases (c : Z) :
  (isupper c = true /\ tolower c = c + 32) \/
  (isupper c = false /\ tolower c = c).
Proof.
  unfold tolower. destruct (isupper c); [left|right]; split;
    try reflexivity. literals. lia.
Qed.

Lemma toupper_cases (c : Z) :
  (islower c = true /\ toupper c = c - 32) \/
  (islower c = false /\ toupper c = c).
Proof.
  unfold toupper. destruct (islower c); [left|right]; split;
    try reflexivity. literals. lia.
Qed.

(** X4.  Converting the case twice: [toupper] after [tolower] is [toupper],
    [tolower] after [toupper] is [tolower], each conversion applied twice
    is the conversion, and the result of [tolower] is never uppercase, that
    of [toupper] never lowercase. *)
Theorem case_conversion_composes (c : Z) :
  toupper (tolower c) = toupper c /\
  tolower (toupper c) = tolower c /\
  tolower (tolower c) = tolower c /\
  toupper (toupper c) = toupper c /\
  isupper (tolower c) = false /\
  islower (toupper c) = false.
Proof.
  destruct (tolower_cases c) as [[? ?]|[? ?]];
    destruct (toupper_cases c) as [[? ?]|[? ?]];
    destruct (toupper_cases (tolower c)) as [[? ?]|[? ?]];
    destruct (tolower_cases (toupper c)) as [[? ?]|[? ?]];
    destruct (tolower_cases (tolower c)) as [[? ?]|[? ?]];
    destruct (toupper_cases (toupper c)) as [[? ?]|[? ?]];
    repeat match goal with |- _ /\ _ => split end;
    try (apply not_true_iff_false; intros ?);
    class_ranges; lia.
Qed.

(** X5.  The conversions undo each other on letters: an uppercase code
    comes back from [toupper (tolower c)] and a lowercase one from
    [tolower (toupper c)], the other case lying 32 away. *)
Theorem case_round_trip (c : Z) :
  isalpha c = true ->
  (isupper c = true /\ tolower c = c + 32 /\ toupper (tolower c) = c) \/
  (islower c = true /\ toupper c = c - 32 /\ tolower (toupper c) = c).
Proof.
  intros letter. apply isalpha_range in letter.
  destruct letter as [upper|lower]; [left|right].
  - assert (isupper c = true) as up by (apply isupper_range; exact upper).
    assert (tolower c = c + 32) as low.
    { unfold tolower. rewrite up. literals. lia. }
    repeat split; [exact up|exact low|]. rewrite low. unfold toupper.
    replace (islower (c + 32)) with true
      by (symmetry; apply islower_range; lia).
    literals. lia.
  - assert (islower c = true) as low by (apply islower_range; exact lower).
    assert (toupper c = c - 32) as up.
    { unfold toupper. rewrite low. literals. lia. }
    repeat split; [exact low|exact up|]. rewrite up. unfold tolower.
    replace (isupper (c - 32)) with true
      by (symmetry; apply isupper_range; lia).
    literals. lia.
Qed.

Lemma case_round_trip_of_Q :
  (isupper (chr "Q") = true /\ tolower (chr "Q") = chr "Q" + 32 /\
   toupper (tolower (chr "Q")) = chr "Q") \/
  (islower (chr "Q") = true /\ toupper (chr "Q") = chr "Q" - 32 /\
   tolower (toupper (chr "Q")) = chr "Q").
Proof. exact (case_round_trip (chr "Q") eq_refl). Defined.

(** ** Class removal *)

Lemma filter_and {A : Type} (p q : A -> bool) (l : list A) :
  filter q (filter p l) = filter (fun x => p x && q x) l.
Proof.
  induction l as [|x l IH]; simpl; [reflexivity|].
  destruct (p x); simpl; [|exact IH].
  destruct (q x); rewrite IH; reflexivity.
Qed.

Lemma filter_kept {A : Type} (p : A -> bool) (l : list A) :
  forallb p (filter p l) = true.
Proof.
  induction l as [|x l IH]; simpl; [reflexivity|].
  destruct (p x) eqn:kept; simpl; rewrite ?kept; exact IH.
Qed.

Lemma filter_split_length {A : Type} (p : A -> bool) (l : list A) :
  (length (filter (fun x => negb (p x)) l) + length (filter p l)
   = length l)%nat.
Proof.
  induction l as [|x l IH]; simpl; [reflexivity|].
  destruct (p x); simpl; lia.
Qed.

(** X6.  The loop of [ignore_if] builds the bytes of [source] that [pred]
    rejects, in their order: no byte that [pred] accepts is left, and the
    bytes left and the bytes accepted add up to [source]. *)
Theorem ignore_if_keeps_the_rejected (source : str) (pred : ascii -> bool) :
  ignore_if source pred = filter (fun item => negb (pred item)) source /\
  forallb (fun item => negb (pred item)) (ignore_if source pred) = true /\
  (length (ignore_if source pred) + length (filter pred source)
   = length source)%nat.
Proof.
  rewrite ignore_if_filter. repeat split.
  - apply (filter_kept (fun item => negb (pred item))).
  - apply filter_split_length.
Qed.

(** X7.  Two class removals in a row are one removal by either predicate,
    so their order does not matter. *)
Theorem ignore_and_append_composes (buf : str) (p q : ascii -> bool) :
  ignore_and_append (ignore_and_append buf p) q
  = ignore_and_append buf (fun item => p item || q item) /\
  ignore_and_append (ignore_and_append buf p) q
  = ignore_and_append (ignore_and_append buf q) p.
Proof.
  rewrite !ignore_and_append_filter, !filter_and. split.
  - apply filter_ext. intros b. rewrite negb_orb. reflexivity.
  - apply filter_ext. intros b. apply andb_comm.
Qed.

(** X8.  What [match_args] leaves of the buffer: the bytes that satisfy the
    predicate of no token the pattern contains, in their order.  A byte is
    selected exactly when some block of [match_args] finds its token in the
    pattern and its predicate true of the byte. *)
Theorem match_args_keeps_the_unselected (char_signed : bool)
    (args buf : str) :
  match_args char_signed args buf
  = filter (fun b => negb (selected char_signed args b)) buf /\
  forallb (fun b => negb (selected char_signed args b))
          (match_args char_signed args buf) = true /\
  forall b,
    selected char_signed args b = true <->
    exists token pred,
      In (token, pred) class_tokens /\
      contains_this args (lit token) = true /\
      pred (int_of_char char_signed b) = true.
Proof.
  rewrite match_args_filter. repeat split.
  - apply (filter_kept (fun b => negb (selected char_signed args b))).
  - unfold selected. intros chosen. apply existsb_exists in chosen.
    destruct chosen as [[token pred] [listed both]].
    apply andb_prop in both. exists token, pred. tauto.
  - intros (token & pred & listed & present & holds).
    eapply selected_intro; eassumption.
Qed.

(** X9.  Running the class removal again changes nothing, and the pass
    treats every byte on its own: the result for two buffers one after the
    other is the two results one after the other. *)
Theorem match_args_idempotent_and_bytewise (char_signed : bool)
    (args buf more : str) :
  match_args char_signed args (match_args char_signed args buf)
  = match_args char_signed args buf /\
  match_args char_signed args (buf ++ more)
  = match_args char_signed args buf ++ match_args char_signed args more.
Proof.
  rewrite !match_args_filter. split.
  - apply filter_twice.
  - apply filter_app.
Qed.

(** ** [contains_this] *)

Lemma starts_with_prefix (s key : str) :
  starts_with s key = true <-> exists post, s = key ++ post.
Proof.
  revert s. induction key as [|k key IH]; intros s.
  - destruct s; simpl; split; eauto.
  - destruct s as [|x s]; simpl.
    + split; [discriminate|]. intros [post [=]].
    + rewrite andb_true_iff, IH. split.
      * intros [same [post ->]]. apply Ascii.eqb_eq in same. subst x. eauto.
      * intros [post [= -> ->]]. split; [apply Ascii.eqb_refl|eauto].
Qed.

Lemma first_occurrence_found (s key : str) (i : nat) :
  first_occurrence s key = Some i ->
  exists pre post, s = pre ++ key ++ post /\ length pre = i.
Proof.
  revert i. induction s as [|x s IH]; intros i; cbn [first_occurrence].
  - destruct (starts_with [] key) eqn:here; intros [= <-].
    apply starts_with_prefix in here. destruct here as [post ->].
    exists [], post. split; reflexivity.
  - destruct (starts_with (x :: s) key) eqn:here.
    + intros [= <-]. apply starts_with_prefix in here.
      destruct here as [post here]. exists [], post. split; [exact here|].
      reflexivity.
    + destruct (first_occurrence s key) as [i'|]; simpl; intros [= <-].
      destruct (IH i' eq_refl) as (pre & post & -> & <-).
      exists (x :: pre), post. split; reflexivity.
Qed.

Lemma first_occurrence_least (s key pre post : str) :
  s = pre ++ key ++ post ->
  exists i, first_occurrence s key = Some i /\ (i <= length pre)%nat.
Proof.
  revert s. induction pre as [|x pre IH]; intros s ->.
  - exists 0%nat. split; [|simpl; lia].
    assert (starts_with ([] ++ key ++ post) key = true) as here
      by (apply starts_with_prefix; exists post; reflexivity).
    destruct ([] ++ key ++ post); cbn [first_occurrence]; rewrite here;
      reflexivity.
  - change ((x :: pre) ++ key ++ post) with (x :: pre ++ key ++ post).
    cbn [first_occurrence].
    destruct (starts_with (x :: pre ++ key ++ post) key).
    + exists 0%nat. split; [reflexivity|lia].
    + destruct (IH _ eq_refl) as (i & -> & least).
      exists (S i). split; [reflexivity|simpl; lia].
Qed.

(** X10.  [contains_this] is containment of a substring: for a string
    short of [npos] characters it is true exactly when [key] stands
    somewhere in [source], and [find] is then the length of the shortest
    text before an occurrence. *)
Theorem contains_this_substring (source key : str) :
  size source < npos ->
  (contains_this source key = true <->
   exists pre post, source = pre ++ key ++ post) /\
  (forall pre post,
     source = pre ++ key ++ post ->
     0 <= find source key <= size pre) /\
  (contains_this source key = true ->
   exists pre post,
     source = pre ++ key ++ post /\ find source key = size pre).
Proof.
  intros short. unfold contains_this, find, size in *.
  assert (forall pre post,
            source = pre ++ key ++ post ->
            exists i, first_occurrence source key = Some i /\
                      Z.of_nat i <= Z.of_nat (length pre) < npos)
    as least.
  { intros pre post occurs.
    destruct (first_occurrence_least _ _ _ _ occurs) as (i & found & le).
    exists i. split; [exact found|]. subst source.
    rewrite !length_app in short. lia. }
  split; [split|split].
  - destruct (first_occurrence source key) as [i|] eqn:first.
    + intros _. apply first_occurrence_found in first.
      destruct first as (pre & post & -> & _). eauto.
    + rewrite Z.eqb_refl. discriminate.
  - intros (pre & post & occurs).
    destruct (least _ _ occurs) as (i & -> & bound).
    apply negb_true_iff, Z.eqb_neq. lia.
  - intros pre post occurs.
    destruct (least _ _ occurs) as (i & -> & bound). lia.
  - destruct (first_occurrence source key) as [i|] eqn:first.
    + intros _. apply first_occurrence_found in first.
      destruct first as (pre & post & -> & <-). eauto.
    + rewrite Z.eqb_refl. discriminate.
Qed.

Lemma contains_this_substring_upper :
  (contains_this (lit "l[:upper:]") (lit "[:upper:]") = true <->
   exists pre post, lit "l[:upper:]" = pre ++ lit "[:upper:]" ++ post) /\
  (forall pre post,
     lit "l[:upper:]" = pre ++ lit "[:upper:]" ++ post ->
     0 <= find (lit "l[:upper:]") (lit "[:upper:]") <= size pre) /\
  (contains_this (lit "l[:upper:]") (lit "[:upper:]") = true ->
   exists pre post,
     lit "l[:upper:]" = pre ++ lit "[:upper:]" ++ post /\
     find (lit "l[:upper:]") (lit "[:upper:]") = size pre).
Proof.
  exact (contains_this_substring (lit "l[:upper:]") (lit "[:upper:]")
           eq_refl).
Defined.

(** ** Patterns without a class token *)

Lemma first_occurrence_longer_key (s key more : str) :
  first_occurrence s key = None -> first_occurrence s (key ++ more) = None.
Proof.
  intros absent.
  destruct (first_occurrence s (key ++ more)) as [i|] eqn:longer;
    [|reflexivity].
  apply first_occurrence_found in longer.
  destruct longer as (pre & post & occurs & _).
  rewrite <- app_assoc in occurs.
  destruct (first_occurrence_least _ _ _ _ occurs) as (j & found & _).
  congruence.
Qed.

Lemma contains_this_longer_key (s key more : str) :
  size s < npos ->
  contains_this s key = false -> contains_this s (key ++ more) = false.
Proof.
  intros short absent. unfold contains_this, find in *.
  destruct (first_occurrence s key) as [i|] eqn:first.
  - apply first_occurrence_bound in first.
    apply negb_false_iff, Z.eqb_eq in absent. unfold size in short. lia.
  - rewrite (first_occurrence_longer_key _ _ more first).
    rewrite Z.eqb_refl. reflexivity.
Qed.

Lemma no_delimiter_no_token (char_signed : bool) (args : str) (b : ascii) :
  size args < npos ->
  contains_this args (lit "[:") = false ->
  selected char_signed args b = false.
Proof.
  intros short absent. unfold selected.
  apply not_true_iff_false. intros chosen. apply existsb_exists in chosen.
  destruct chosen as [[token pred] [listed both]].
  apply andb_prop in both. destruct both as [present _].
  assert (exists name, lit token = lit "[:" ++ name) as [name begins].
  { unfold class_tokens in listed. simpl in listed.
    repeat (destruct listed as [[= <- <-]|listed];
            [eexists; reflexivity|]).
    contradiction. }
  simpl fst in present. rewrite begins in present.
  rewrite (contains_this_longer_key _ _ name short absent) in present.
  discriminate.
Qed.

(** X11.  A pattern without ["[:"] names no class: [match_args] returns the
    buffer as it is, the residue is the whole pattern, and [main] ends as
    [look_for] does on the buffer it has read and the pattern. *)
Theorem pattern_without_delimiter (char_signed : bool) (buf args : str)
    (look_lim : Z) :
  size args < npos ->
  contains_this args (lit "[:") = false ->
  match_args char_signed args buf = buf /\
  residue args = Some args /\
  main_core char_signed buf args look_lim
  = match look_for buf args look_lim with
    | Returned _ file_buf _ => Printed file_buf
    | Exited status cerr file_buf _ => Died status cerr file_buf
    end.
Proof.
  intros short absent.
  assert (match_args char_signed args buf = buf) as untouched.
  { rewrite match_args_filter.
    induction buf as [|b buf IH]; simpl; [reflexivity|].
    rewrite (no_delimiter_no_token char_signed args b short absent).
    simpl. rewrite IH. reflexivity. }
  pose proof (residue_without_delimiter args absent) as whole.
  repeat split; [exact untouched|exact whole|].
  unfold main_core. rewrite untouched, whole. reflexivity.
Qed.

Lemma pattern_without_delimiter_si :
  match_args true (lit "si") (lit "mississippi") = lit "mississippi" /\
  residue (lit "si") = Some (lit "si") /\
  main_core true (lit "mississippi") (lit "si") 1
  = match look_for (lit "mississippi") (lit "si") 1 with
    | Returned _ file_buf _ => Printed file_buf
    | Exited status cerr file_buf _ => Died status cerr file_buf
    end.
Proof.
  exact (pattern_without_delimiter true (lit "mississippi") (lit "si") 1
           eq_refl eq_refl).
Defined.

(** ** How [main] ends *)

(** X12.  With a negative limit [main] prints nothing: it ends in the
    [fatal_errorx] of [look_for], with the exit status 1, and by then
    [match_args] has already taken the classes of the pattern out of the
    buffer. *)
Theorem main_dies_on_negative_limit (char_signed : bool) (buf args : str)
    (look_lim : Z) :
  look_lim < 0 ->
  main_core char_signed buf args look_lim
  = Died 1 ("error: size of how many, cannot be less than 0." ++ newline)
         (match_args char_signed args buf).
Proof.
  intros negative. unfold main_core.
  destruct (residue_returns args) as [literals ->].
  unfold look_for. destruct (Z.ltb_spec look_lim 0); [reflexivity|lia].
Qed.

Lemma main_dies_on_negative_limit_digits :
  main_core true (lit "Hello123") (lit "[:digit:]") (-5)
  = Died 1 ("error: size of how many, cannot be less than 0." ++ newline)
         (match_args true (lit "[:digit:]") (lit "Hello123")).
Proof.
  exact (main_dies_on_negative_limit true (lit "Hello123") (lit "[:digit:]")
           (-5) eq_refl).
Defined.

(** ** The residue *)

Lemma subsequence_app {A : Type} (a b c d : list A) :
  subsequence a b -> subsequence c d -> subsequence (a ++ c) (b ++ d).
Proof.
  intros ab cd. induction ab; simpl; [exact cd| |]; constructor; assumption.
Qed.

Lemma subsequence_skipn {A : Type} (n : nat) (s : list A) :
  subsequence (skipn n s) s.
Proof.
  revert n. induction s as [|x s IH]; intros [|n]; simpl;
    try apply subsequence_refl.
  constructor. apply IH.
Qed.

Lemma subsequence_erase_range (s : str) (first last : nat) :
  (first <= last)%nat -> subsequence (erase_range s first last) s.
Proof.
  intros ordered. unfold erase_range.
  rewrite <- (firstn_skipn first s) at 3.
  apply subsequence_app; [apply subsequence_refl|].
  replace last with ((last - first) + first)%nat by lia.
  rewrite <- skipn_skipn. apply subsequence_skipn.
Qed.

(** X13.  The span [main] takes out of a pattern with its first ["[:"] at
    [i] and its last [":]"] at [j]: it starts at [i] and is [j + 2]
    characters long, or reaches the end of the pattern.  What stands before
    the first ["[:"] stays, and the residue is the pattern with characters
    deleted, none moved. *)
Theorem residue_removed_span (arg_v1 : str) (i j : nat) :
  first_occurrence arg_v1 (lit "[:") = Some i ->
  last_occurrence arg_v1 (lit ":]") = Some j ->
  size arg_v1 + 2 < size_max ->
  exists literals,
    residue arg_v1 = Some literals /\
    literals = firstn i arg_v1 ++ skipn (i + (j + 2)) arg_v1 /\
    firstn i literals = firstn i arg_v1 /\
    subsequence literals arg_v1.
Proof.
  intros first last fits.
  pose proof (first_occurrence_bound _ _ _ first) as bound.
  exists (erase_range arg_v1 i (i + (j + 2))). repeat split.
  - apply residue_span; assumption.
  - unfold erase_range. rewrite firstn_app, firstn_firstn, length_firstn.
    replace (i - Nat.min i (length arg_v1))%nat with 0%nat by lia.
    rewrite Nat.min_id. simpl. apply app_nil_r.
  - apply subsequence_erase_range. lia.
Qed.

Lemma residue_removed_span_x_digit_ab :
  exists literals,
    residue (lit "x[:digit:]ab") = Some literals /\
    literals = firstn 1 (lit "x[:digit:]ab")
               ++ skipn (1 + (8 + 2)) (lit "x[:digit:]ab") /\
    firstn 1 literals = firstn 1 (lit "x[:digit:]ab") /\
    subsequence literals (lit "x[:digit:]ab").
Proof.
  exact (residue_removed_span (lit "x[:digit:]ab") 1 8 eq_refl eq_refl
           eq_refl).
Defined.

(** X14.  When the pattern begins with its first ["[:"], or ends with its
    last [":]"], the span taken out is the one from the first ["[:"] to the
    end of the last [":]"]: the residue is what stands before and after
    the class tokens. *)
Theorem residue_of_tokens_at_an_end (arg_v1 : str) (i j : nat) :
  first_occurrence arg_v1 (lit "[:") = Some i ->
  last_occurrence arg_v1 (lit ":]") = Some j ->
  size arg_v1 + 2 < size_max ->
  i = 0%nat \/ (j + 2)%nat = length arg_v1 ->
  residue arg_v1 = Some (firstn i arg_v1 ++ skipn (j + 2) arg_v1).
Proof.
  intros first last fits at_end.
  rewrite (residue_span _ _ _ first last fits). unfold erase_range.
  destruct at_end as [-> | ends]; [reflexivity|].
  rewrite !skipn_all2 by lia. reflexivity.
Qed.

Lemma residue_of_tokens_at_an_end_readme :
  residue (lit "l[:upper:][:blank:]")
  = Some (firstn 1 (lit "l[:upper:][:blank:]")
          ++ skipn (17 + 2) (lit "l[:upper:][:blank:]")).
Proof.
  exact (residue_of_tokens_at_an_end (lit "l[:upper:][:blank:]") 1 17
           eq_refl eq_refl eq_refl (or_intror eq_refl)).
Defined.

(** X15.  A pattern with ["[:"] and without any [":]"] loses one character,
    the ["["] of its first ["[:"]: [rfind] returns [npos], and [npos + 2]
    wraps around to 1. *)
Theorem residue_without_closing_delimiter (arg_v1 : str) (i : nat) :
  first_occurrence arg_v1 (lit "[:") = Some i ->
  last_occurrence arg_v1 (lit ":]") = None ->
  size arg_v1 < npos ->
  size_add npos 2 = 1 /\
  residue arg_v1 = Some (erase_at arg_v1 i).
Proof.
  intros first last short. split; [reflexivity|].
  pose proof (first_occurrence_bound _ _ _ first) as bound.
  unfold residue, find, rfind, replace, size in *.
  rewrite first, last. simpl length in *.
  destruct (Z.eqb_spec (Z.of_nat i) npos) as [huge|_]; [lia|].
  simpl negb. cbv iota.
  destruct (Z.ltb_spec (Z.of_nat (length arg_v1)) (Z.of_nat i)); [lia|].
  change (size_add npos 2) with 1.
  rewrite Z.min_l by lia. rewrite Nat2Z.id.
  replace (Z.to_nat (Z.of_nat i + 1)) with (S i) by lia.
  reflexivity.
Qed.

Lemma residue_without_closing_delimiter_open :
  size_add npos 2 = 1 /\
  residue (lit "ab[:cd") = Some (erase_at (lit "ab[:cd") 2).
Proof.
  exact (residue_without_closing_delimiter (lit "ab[:cd") 2 eq_refl eq_refl
           eq_refl).
Defined.

(** ** Literal removal as a whole *)

Lemma passes_cons (times : Z) (e : ascii) (matches source : str) :
  0 <= times ->
  passes times (e :: matches) source
  = passes times matches (remove_leftmost (Z.to_nat times) e source).
Proof.
  intros bound. unfold passes. simpl.
  rewrite while_find_remove_leftmost by exact bound. reflexivity.
Qed.

Lemma occurrences_cons (x e : ascii) (s : str) :
  occurrences (x :: s) e
  = ((if Ascii.eqb x e then 1 else 0) + occurrences s e)%nat.
Proof.
  unfold occurrences. simpl.
  destruct (Ascii.eqb_spec x e); destruct (ascii_dec x e);
    try contradiction; reflexivity.
Qed.

Lemma occurrences_le_length (s : str) (e : ascii) :
  (occurrences s e <= length s)%nat.
Proof.
  induction s as [|x s IH]; [simpl; lia|].
  rewrite occurrences_cons. simpl. destruct (Ascii.eqb x e); lia.
Qed.

(** X16.  What [look_for] does to the number of occurrences of a byte [c],
    duplicates in the residue included: when [c] stands [m] times in the
    residue and [k] times in the buffer, [min k (m * N)] of its
    occurrences go, none when [c] is no character of the residue; and in
    all the buffer gets shorter by no more than [N] bytes for every
    character of the residue. *)
Theorem look_for_removes_per_occurrence (source matches : str) (c : ascii)
    (N : Z) :
  0 <= N ->
  exists out,
    look_for source matches N = Returned out out matches /\
    Z.of_nat (occurrences out c)
    = Z.of_nat (occurrences source c)
      - Z.min (Z.of_nat (occurrences source c))
              (Z.of_nat (occurrences matches c) * N) /\
    Z.of_nat (length source) - Z.of_nat (length out)
    <= Z.of_nat (length matches) * N.
Proof.
  intros bound. exists (passes N matches source).
  split; [apply look_for_passes; exact bound|].
  revert source. induction matches as [|e matches IH]; intros source.
  - unfold passes, occurrences. simpl. lia.
  - rewrite passes_cons by exact bound.
    destruct (IH (remove_leftmost (Z.to_nat N) e source)) as [count len].
    pose proof (remove_leftmost_length (Z.to_nat N) e source) as shorter.
    rewrite occurrences_cons.
    assert (0 <= Z.of_nat (occurrences matches c) * N) as product by nia.
    split.
    + rewrite count. destruct (Ascii.eqb_spec e c) as [->|other].
      * rewrite remove_leftmost_occurrences. lia.
      * rewrite remove_leftmost_others by congruence. lia.
    + simpl length. lia.
Qed.

Lemma look_for_removes_per_occurrence_bbbb :
  exists out,
    look_for (lit "bbbb") (lit "bab") 1 = Returned out out (lit "bab") /\
    Z.of_nat (occurrences out "b")
    = Z.of_nat (occurrences (lit "bbbb") "b")
      - Z.min (Z.of_nat (occurrences (lit "bbbb") "b"))
              (Z.of_nat (occurrences (lit "bab") "b") * 1) /\
    Z.of_nat (length (lit "bbbb")) - Z.of_nat (length out)
    <= Z.of_nat (length (lit "bab")) * 1.
Proof.
  exact (look_for_removes_per_occurrence (lit "bbbb") (lit "bab") "b" 1
           ltac:(lia)).
Defined.

Lemma remove_leftmost_all (n : nat) (e : ascii) (s : str) :
  (occurrences s e <= n)%nat ->
  remove_leftmost n e s = filter (fun x => negb (Ascii.eqb x e)) s.
Proof.
  revert n. induction s as [|x s IH]; intros n.
  - destruct n; reflexivity.
  - rewrite occurrences_cons. destruct n as [|n]; simpl.
    + destruct (Ascii.eqb x e); simpl; [lia|]. intros none.
      rewrite <- (IH 0%nat) by lia. rewrite remove_leftmost_none.
      reflexivity.
    + destruct (Ascii.eqb x e); simpl; intros enough.
      * apply IH. lia.
      * rewrite IH by lia. reflexivity.
Qed.

Lemma filter_length_le {A : Type} (p : A -> bool) (l : list A) :
  (length (filter p l) <= length l)%nat.
Proof. induction l as [|x l IH]; simpl; [lia|]. destruct (p x); simpl; lia. Qed.

Lemma passes_unlimited (times : Z) (matches source : str) :
  Z.of_nat (length source) <= times ->
  passes times matches source
  = filter (fun b => negb (in_residue matches b)) source.
Proof.
  intros enough. assert (0 <= times) as bound by lia.
  revert source enough. induction matches as [|e matches IH];
    intros source enough.
  - unfold passes. simpl. induction source as [|b source IHs]; simpl;
      [reflexivity|]. rewrite <- IHs by (simpl in enough; lia). reflexivity.
  - rewrite passes_cons by exact bound.
    pose proof (occurrences_le_length source e) as few.
    rewrite remove_leftmost_all by lia.
    pose proof (filter_length_le (fun x => negb (Ascii.eqb x e)) source).
    rewrite IH by lia. rewrite filter_and. apply filter_ext. intros b.
    unfold in_residue. simpl. rewrite negb_orb. reflexivity.
Qed.

(** X17.  With a limit that is not below the length of the buffer, and so
    with the default limit of [main], [look_for] takes out every
    occurrence of every character of the residue: what it returns is the
    bytes of the buffer that are no character of the residue, in their
    order. *)
Theorem look_for_unlimited (source matches : str) (N : Z) :
  Z.of_nat (length source) <= N ->
  look_for source matches N
  = Returned (filter (fun b => negb (in_residue matches b)) source)
             (filter (fun b => negb (in_residue matches b)) source)
             matches.
Proof.
  intros enough. rewrite look_for_passes by lia.
  rewrite passes_unlimited by exact enough. reflexivity.
Qed.

Lemma look_for_unlimited_mississippi :
  look_for (lit "mississippi") (lit "si") (2 ^ 63 - 1)
  = Returned
      (filter (fun b => negb (in_residue (lit "si") b)) (lit "mississippi"))
      (filter (fun b => negb (in_residue (lit "si") b)) (lit "mississippi"))
      (lit "si").
Proof.
  exact (look_for_unlimited (lit "mississippi") (lit "si") (2 ^ 63 - 1)
           ltac:(simpl; lia)).
Defined.

(** Taking out [m] and then [n] occurrences of one byte is taking out
    [m + n]. *)
Lemma remove_leftmost_add (n m : nat) (e : ascii) (s : str) :
  remove_leftmost n e (remove_leftmost m e s) = remove_leftmost (m + n) e s.
Proof.
  revert n m. induction s as [|x s IH]; intros n m.
  - destruct n, m; reflexivity.
  - destruct m as [|m]; [rewrite remove_leftmost_none; reflexivity|].
    cbn [remove_leftmost Nat.add].
    destruct (Ascii.eqb x e) eqn:head; [apply IH|].
    destruct n as [|n].
    + rewrite remove_leftmost_none, Nat.add_0_r. reflexivity.
    + cbn [remove_leftmost]. rewrite head, IH. reflexivity.
Qed.

(** The deletions for two different bytes do not get in each other's
    way. *)
Lemma remove_leftmost_commute (n m : nat) (a b : ascii) (s : str) :
  remove_leftmost n a (remove_leftmost m b s)
  = remove_leftmost m b (remove_leftmost n a s).
Proof.
  destruct (Ascii.eqb_spec a b) as [->|other].
  { rewrite !remove_leftmost_add. f_equal. apply Nat.add_comm. }
  revert n m. induction s as [|x s IH]; intros n m.
  - destruct n, m; reflexivity.
  - destruct n as [|n]; [rewrite !remove_leftmost_none; reflexivity|].
    destruct m as [|m]; [rewrite !remove_leftmost_none; reflexivity|].
    cbn [remove_leftmost].
    destruct (Ascii.eqb_spec x b) as [is_b|not_b];
      destruct (Ascii.eqb_spec x a) as [is_a|not_a];
      try congruence; cbn [remove_leftmost].
    + destruct (Ascii.eqb_spec x b); [|contradiction]. apply IH.
    + destruct (Ascii.eqb_spec x a); [|contradiction]. apply IH.
    + destruct (Ascii.eqb_spec x a); [contradiction|].
      destruct (Ascii.eqb_spec x b); [contradiction|].
      f_equal. apply IH.
Qed.

Lemma passes_remove_leftmost (times : Z) (n : nat) (e : ascii)
    (matches source : str) :
  0 <= times ->
  passes times matches (remove_leftmost n e source)
  = remove_leftmost n e (passes times matches source).
Proof.
  intros bound. revert source.
  induction matches as [|x matches IH]; intros source; [reflexivity|].
  rewrite !passes_cons by exact bound.
  rewrite remove_leftmost_commute. apply IH.
Qed.

Lemma passes_permutation (times : Z) (matches matches' source : str) :
  0 <= times -> Permutation matches matches' ->
  passes times matches source = passes times matches' source.
Proof.
  intros bound same. revert source.
  induction same as [|x m m' same IH|x y m|m m' m'' _ IH _ IH'];
    intros source.
  - reflexivity.
  - rewrite !passes_cons by exact bound. apply IH.
  - rewrite !passes_cons by exact bound.
    rewrite remove_leftmost_commute. reflexivity.
  - rewrite IH. apply IH'.
Qed.

(** X18.  The order of the characters in the residue does not matter:
    [look_for] returns the same buffer for two residues that are
    rearrangements of each other. *)
Theorem look_for_residue_order (source matches matches' : str) (N : Z) :
  0 <= N -> Permutation matches matches' ->
  exists out,
    look_for source matches N = Returned out out matches /\
    look_for source matches' N = Returned out out matches'.
Proof.
  intros bound same. exists (passes N matches source). split.
  - apply look_for_passes. exact bound.
  - rewrite (passes_permutation N matches matches' source bound same).
    apply look_for_passes. exact bound.
Qed.

Lemma look_for_residue_order_si :
  exists out,
    look_for (lit "mississippi") (lit "si") 2 = Returned out out (lit "si") /\
    look_for (lit "mississippi") (lit "is") 2 = Returned out out (lit "is").
Proof.
  exact (look_for_residue_order (lit "mississippi") (lit "si") (lit "is") 2
           ltac:(lia) (perm_swap _ _ _)).
Defined.

Lemma passes_repeat (times : Z) (m : nat) (c : ascii) (source : str) :
  0 <= times ->
  passes times (repeat c m) source
  = remove_leftmost (m * Z.to_nat times) c source.
Proof.
  intros bound. revert source. induction m as [|m IH]; intros source.
  - simpl. rewrite remove_leftmost_none. reflexivity.
  - simpl repeat. rewrite passes_cons by exact bound.
    rewrite IH, remove_leftmost_add. reflexivity.
Qed.

(** X19.  A character written [m] times in the residue is a character
    written once with [m] times the limit: [look_for] takes out its
    leftmost [m * N] occurrences, or all it finds. *)
Theorem look_for_repeated_character (source : str) (c : ascii) (m : nat)
    (N : Z) :
  0 <= N ->
  look_for source (repeat c m) N
  = Returned (remove_leftmost (m * Z.to_nat N) c source)
             (remove_leftmost (m * Z.to_nat N) c source)
             (repeat c m).
Proof.
  intros bound. rewrite look_for_passes by exact bound.
  rewrite passes_repeat by exact bound. reflexivity.
Qed.

Lemma look_for_repeated_character_bb :
  look_for (lit "abbbb") (repeat "b"%char 2) 1
  = Returned (remove_leftmost (2 * Z.to_nat 1) "b" (lit "abbbb"))
             (remove_leftmost (2 * Z.to_nat 1) "b" (lit "abbbb"))
             (repeat "b"%char 2).
Proof.
  exact (look_for_repeated_character (lit "abbbb") "b" 2 1 ltac:(lia)).
Defined.

(** ** [main], from the buffer to the output *)

(** X20.  What [main] prints with a limit that is not below the length of
    the file, the default limit among them: the bytes of the buffer that
    no class token of the pattern selects and that are no character of the
    residue, in their order. *)
Theorem main_prints_the_unselected (char_signed : bool) (buf args : str)
    (look_lim : Z) :
  Z.of_nat (length buf) <= look_lim ->
  exists literals,
    residue args = Some literals /\
    main_core char_signed buf args look_lim
    = Printed (filter (fun b => negb (selected char_signed args b)
                                && negb (in_residue literals b))
                      buf).
Proof.
  intros enough. destruct (residue_returns args) as [literals rest].
  exists literals. split; [exact rest|].
  unfold main_core. rewrite rest, match_args_filter.
  pose proof (filter_length_le
                (fun b => negb (selected char_signed args b)) buf) as shorter.
  rewrite look_for_passes, passes_unlimited by lia.
  rewrite filter_and. reflexivity.
Qed.

Lemma main_prints_the_unselected_third_scenario :
  exists literals,
    residue (lit "l[:upper:][:blank:]") = Some literals /\
    main_core true (lit "Al B2 lC3") (lit "l[:upper:][:blank:]") 9
    = Printed (filter
                 (fun b =>
                    negb (selected true (lit "l[:upper:][:blank:]") b)
                    && negb (in_residue literals b))
                 (lit "Al B2 lC3")).
Proof.
  exact (main_prints_the_unselected true (lit "Al B2 lC3")
           (lit "l[:upper:][:blank:]") 9 ltac:(simpl; lia)).
Defined.

(** ** [read_file] *)

Lemma c_string_before_zero (stored rest : str) :
  c_string (stored ++ zero :: rest) = c_string stored.
Proof.
  induction stored as [|x stored IH]; simpl; [reflexivity|].
  destruct (Ascii.eqb x zero); [reflexivity|]. rewrite IH. reflexivity.
Qed.

Lemma c_string_prefix (m_buf : str) :
  exists rest, m_buf = c_string m_buf ++ rest.
Proof.
  induction m_buf as [|x m_buf [rest IH]]; simpl; [exists []; reflexivity|].
  destruct (Ascii.eqb x zero); [eexists; reflexivity|].
  exists rest. simpl. rewrite <- IH. reflexivity.
Qed.

Lemma c_string_no_zero (m_buf : str) :
  forallb (fun b => negb (Ascii.eqb b zero)) (c_string m_buf) = true.
Proof.
  induction m_buf as [|x m_buf IH]; simpl; [reflexivity|].
  destruct (Ascii.eqb x zero) eqn:head; simpl; [reflexivity|].
  rewrite head. exact IH.
Qed.

Lemma c_string_whole (s : str) :
  forallb (fun b => negb (Ascii.eqb b zero)) s = true -> c_string s = s.
Proof.
  induction s as [|x s IH]; simpl; [reflexivity|].
  intros text. apply andb_prop in text. destruct text as [head text].
  apply negb_true_iff in head. rewrite head, IH by exact text. reflexivity.
Qed.

Lemma skipn_repeat_zero (k n : nat) :
  skipn k (repeat zero n) = repeat zero (n - k).
Proof.
  revert k. induction n as [|n IH]; intros [|k]; simpl; try reflexivity.
  apply IH.
Qed.

Lemma read_file_c_string (contents : str) (got : nat) :
  read_file contents got = c_string (firstn got contents).
Proof.
  unfold read_file. rewrite skipn_repeat_zero, length_firstn.
  replace (length contents + 1 - Nat.min got (length contents))%nat
    with (S (length contents - Nat.min got (length contents))) by lia.
  simpl repeat. apply c_string_before_zero.
Qed.

(** X21.  The buffer [read_file] returns holds no zero byte and is a
    beginning of the contents of the file, however many bytes [read] has
    stored. *)
Theorem read_file_is_a_beginning (contents : str) (got : nat) :
  forallb (fun b => negb (Ascii.eqb b zero)) (read_file contents got)
  = true /\
  (exists rest, contents = read_file contents got ++ rest) /\
  (length (read_file contents got) <= Nat.min got (length contents))%nat.
Proof.
  rewrite read_file_c_string. repeat split.
  - apply c_string_no_zero.
  - destruct (c_string_prefix (firstn got contents)) as [rest cut].
    exists (rest ++ skipn got contents).
    rewrite app_assoc, <- cut. symmetry. apply firstn_skipn.
  - destruct (c_string_prefix (firstn got contents)) as [rest cut].
    apply (f_equal (@length ascii)) in cut.
    rewrite length_app, length_firstn in cut. lia.
Qed.

(** X22.  When [read] stores the whole file: a file without a zero byte is
    returned as it is, and a file with one is cut before its first zero
    byte, whatever follows it. *)
Theorem read_file_stops_at_zero (contents : str) (got : nat) :
  (length contents <= got)%nat ->
  (forallb (fun b => negb (Ascii.eqb b zero)) contents = true ->
   read_file contents got = contents) /\
  (forall text rest,
     contents = text ++ zero :: rest ->
     forallb (fun b => negb (Ascii.eqb b zero)) text = true ->
     read_file contents got = text).
Proof.
  intros whole. rewrite read_file_c_string, firstn_all2 by exact whole.
  split.
  - apply c_string_whole.
  - intros text rest -> clean. rewrite c_string_before_zero.
    apply c_string_whole. exact clean.
Qed.

Lemma read_file_stops_at_zero_in_the_middle :
  (forallb (fun b => negb (Ascii.eqb b zero))
           ["a"; "b"; "000"; "c"]%char = true ->
   read_file ["a"; "b"; "000"; "c"]%char 4 = ["a"; "b"; "000"; "c"]%char) /\
  (forall text rest,
     ["a"; "b"; "000"; "c"]%char = text ++ zero :: rest ->
     forallb (fun b => negb (Ascii.eqb b zero)) text = true ->
     read_file ["a"; "b"; "000"; "c"]%char 4 = text).
Proof.
  exact (read_file_stops_at_zero ["a"; "b"; "000"; "c"]%char 4
           ltac:(simpl; lia)).
Defined.

Example read_file_ab_zero_c :
  read_file ["a"; "b"; "000"; "c"]%char 4 = ["a"; "b"]%char.
Proof. reflexivity. Qed.

(** ** The tokens of [match_args], one by one *)

(** X23.  The removal of a class is exhaustive: when the pattern contains a
    token of [match_args], no byte that satisfies the predicate its block
    calls is left in the buffer, whatever else the pattern contains. *)
Theorem token_bytes_are_gone (char_signed : bool) (args buf : str)
    (token : string) (pred : Z -> bool) :
  In (token, pred) class_tokens ->
  contains_this args (lit token) = true ->
  forallb (fun b => negb (pred (int_of_char char_signed b)))
          (match_args char_signed args buf) = true.
Proof.
  intros listed present. rewrite match_args_filter. apply forallb_forall.
  intros b kept. apply filter_In in kept. destruct kept as [_ kept].
  apply negb_true_iff in kept. apply negb_true_iff.
  apply not_true_iff_false. intros holds.
  rewrite (selected_intro char_signed args b token pred listed present holds)
    in kept.
  discriminate.
Qed.

Lemma token_bytes_are_gone_digits :
  forallb (fun b => negb (isdigit (int_of_char true b)))
          (match_args true (lit "x[:digit:]") (lit "a1b22c")) = true.
Proof.
  exact (token_bytes_are_gone true (lit "x[:digit:]") (lit "a1b22c")
           "[:digit:]" isdigit
           ltac:(unfold class_tokens; simpl; tauto) eq_refl).
Defined.

(** Every predicate that a block of [match_args] calls holds on ASCII codes
    only. *)
Lemma class_tokens_ascii (token : string) (pred : Z -> bool) (c : Z) :
  In (token, pred) class_tokens -> pred c = true -> 0 <= c <= 127.
Proof.
  unfold class_tokens. simpl. intros listed holds.
  repeat (destruct listed as [[= <- <-]|listed];
          [class_ranges; lia|]).
  contradiction.
Qed.

(** X24.  The class removal never touches a byte above 0x7F, whichever the
    signedness of [char]: such a byte is selected by no token, and the
    bytes above 0x7F of the buffer are all in the result, in their
    order. *)
Theorem class_removal_keeps_high_bytes (char_signed : bool)
    (args buf : str) :
  (forall b, (128 <=? chr b) = true ->
             selected char_signed args b = false) /\
  filter (fun b => 128 <=? chr b) (match_args char_signed args buf)
  = filter (fun b => 128 <=? chr b) buf.
Proof.
  assert (forall b, (128 <=? chr b) = true ->
                    selected char_signed args b = false) as high.
  { intros b above. apply Z.leb_le in above.
    apply not_true_iff_false. intros chosen. unfold selected in chosen.
    apply existsb_exists in chosen.
    destruct chosen as [[token pred] [listed both]].
    apply andb_prop in both. destruct both as [_ holds].
    apply (class_tokens_ascii token pred _ listed) in holds.
    apply int_of_char_ascii in holds. lia. }
  split; [exact high|].
  rewrite match_args_filter, filter_and. apply filter_ext. intros b.
  destruct (128 <=? chr b) eqn:above; [|apply andb_false_r].
  rewrite (high b above). reflexivity.
Qed.

(** X25.  A pattern with a single class token takes out the bytes of the
    predicate that the block of the token calls, and no other byte. *)
Theorem single_token_removes_its_class (char_signed : bool)
    (args buf : str) (token : string) (pred : Z -> bool) :
  In (token, pred) class_tokens ->
  contains_this args (lit token) = true ->
  no_token_but token args = true ->
  match_args char_signed args buf
  = filter (fun b => negb (pred (int_of_char char_signed b))) buf.
Proof.
  intros listed present alone. rewrite match_args_filter.
  apply filter_ext. intros b. f_equal. unfold selected.
  rewrite (selected_by_one_token char_signed token args b class_tokens
             alone).
  rewrite present. clear present alone. unfold class_tokens in *.
  simpl in listed.
  repeat (destruct listed as [[= <- <-]|listed];
          [simpl; rewrite ?orb_false_r; reflexivity|]).
  contradiction.
Qed.

Lemma single_token_removes_its_class_digit :
  match_args true (lit "x[:digit:]y") (lit "a1b22c")
  = filter (fun b => negb (isdigit (int_of_char true b))) (lit "a1b22c").
Proof.
  exact (single_token_removes_its_class true (lit "x[:digit:]y")
           (lit "a1b22c") "[:digit:]" isdigit
           ltac:(unfold class_tokens; simpl; tauto) eq_refl eq_refl).
Defined.
